(** * ReRo-CCTV: the streaming core of [backend-fastapi/main.py]

    A shallow embedding of the FastAPI camera server: the three shared
    dictionaries ([active_sockets], [frames_needed], [frames]), the
    connection handler [websocket_endpoint], the broadcaster
    [update_websockets_for_quality] / [send_to_all] / [safe_send] and the
    capture loop [image_updater].

    Every block the source runs under [with lock:] is one atomic function on
    the shared state.  What happens between two such blocks (other threads,
    the network, the camera, the clock) is an explicit input of the model. *)

From Stdlib Require Import PrimFloat.
From stdpp Require Import gmap strings list fin_maps.

(** ** Python values and exceptions *)

(** A [WebSocket] object is a dictionary key by identity (Starlette keeps
    [object.__hash__] and [object.__eq__] for connections). *)
Definition WebSocket : Type := nat.

Abbreviation bytes := (list Byte.byte).

Inductive exn : Type :=
| WebSocketDisconnect
| RuntimeError
| ConnectionResetError
| KeyError
| IndexError
| OtherError.

Inductive result (A : Type) : Type :=
| Ok (a : A)
| Raise (e : exn).
Arguments Ok {A} a.
Arguments Raise {A} e.

#[global] Instance result_ret : MRet result := λ A a, Ok a.
#[global] Instance result_bind : MBind result := λ A B f m,
  match m with
  | Ok a => f a
  | Raise e => Raise e
  end.

Module Py.

(** [d[k]] on a plain [dict]. *)
Definition dict_getitem `{Countable K} {V} (d : gmap K V) (k : K) : result V :=
  match d !! k with
  | Some v => Ok v
  | None => Raise KeyError
  end.

(** [k in d]. *)
Definition dict_contains `{Countable K} {V} (d : gmap K V) (k : K) : bool :=
  match d !! k with
  | Some _ => true
  | None => false
  end.

(** [del d[k]]. *)
Definition dict_delitem `{Countable K} {V} (d : gmap K V) (k : K) : result (gmap K V) :=
  match d !! k with
  | Some _ => Ok (delete k d)
  | None => Raise KeyError
  end.

(** [d.items()]; the order in which a [dict] is walked is not kept by the
    map, every consumer below is a comprehension run to its end. *)
Definition dict_items `{Countable K} {V} (d : gmap K V) : list (K * V) :=
  map_to_list d.

(** [c[k]] on a [collections.Counter]: a missing key reads as 0 and is not
    inserted. *)
Definition counter_get (c : gmap Z Z) (k : Z) : Z :=
  default 0%Z (c !! k).

(** [l[i]] for an index that [enumerate] produced (never negative). *)
Definition list_getitem {A} (l : list A) (i : nat) : result A :=
  match l !! i with
  | Some x => Ok x
  | None => Raise IndexError
  end.

(** [max(x, 0)] on floats: the first argument is kept unless the second
    compares greater. *)
Definition max0 (x : float) : float :=
  if (x <? 0)%float then 0%float else x.

End Py.

(** ** Global state (lines 20-24) *)

Record State : Type := mkState {
  active_sockets : gmap WebSocket Z;
  frames_needed : gmap Z Z;
  frames : gmap Z bytes
}.

Definition init_state : State :=
  {| active_sockets := ∅; frames_needed := ∅; frames := ∅ |}.

(** What the server does to the outside world. *)
Inductive event : Type :=
| EvAccept (ws : WebSocket)
| EvClose (ws : WebSocket) (code : Z) (reason : string)
| EvSendBytes (ws : WebSocket) (data : bytes)
| EvImencode (quality : Z)
| EvThreadStart (quality : Z)
| EvSleep (seconds : float).

(** ** Connection handler: [websocket_endpoint] (lines 109-136) *)

(** Lines 120-122, one critical section. *)
Definition register (websocket : WebSocket) (quality : Z) (st : State) : State :=
  {| active_sockets := <[websocket := quality]> (active_sockets st);
     frames_needed :=
       <[quality := (Py.counter_get (frames_needed st) quality + 1)%Z]> (frames_needed st);
     frames := frames st |}.

Inductive handler_phase : Type :=
| Returned
| Serving.

(** Lines 112-122: validation, accept, registration. *)
Definition websocket_endpoint_open (websocket : WebSocket) (quality : Z) (st : State)
  : State * list event * handler_phase :=
  if ((quality <? 30)%Z || (quality >? 95)%Z)%bool
  then (st, [EvClose websocket 1003 "Invalid quality parameter"], Returned)
  else (register websocket quality st, [EvAccept websocket], Serving).

(** Lines 130-136: the [finally] block, one critical section. *)
Definition websocket_endpoint_finally (websocket : WebSocket) (st : State) : result State :=
  if Py.dict_contains (active_sockets st) websocket then
    q ← Py.dict_getitem (active_sockets st) websocket;
    let needed := <[q := Z.max (Py.counter_get (frames_needed st) q - 1) 0]> (frames_needed st) in
    sockets ← Py.dict_delitem (active_sockets st) websocket;
    mret {| active_sockets := sockets; frames_needed := needed; frames := frames st |}
  else mret st.

(** ** Broadcaster (lines 32-61) *)

(** The transport: what [websocket.send_bytes(data)] did. *)
Definition transport : Type := WebSocket → bytes → result unit.

(** Lines 32-38. *)
Definition safe_send (send_bytes : transport) (websocket : WebSocket) (data : bytes)
  : result bool :=
  match send_bytes websocket data with
  | Ok _ => Ok true
  | Raise WebSocketDisconnect => Ok false
  | Raise RuntimeError => Ok false
  | Raise ConnectionResetError => Ok false
  | Raise e => Raise e
  end.

(** Lines 42-45, one critical section: the frame and the subscribers. *)
Definition update_websockets_for_quality (quality : Z) (st : State) : bytes * list WebSocket :=
  let frame_data := default [] (frames st !! quality) in
  let sockets := (filter (λ p, p.2 = quality) (Py.dict_items (active_sockets st))).*1 in
  (frame_data, sockets).

(** [asyncio.gather] over the tasks, without [return_exceptions]: every task runs,
    the results come back in task order, an exception of a task is raised
    to the awaiting coroutine. *)
Fixpoint gather {A} (tasks : list (result A)) : result (list A) :=
  match tasks with
  | [] => Ok []
  | t :: tasks' =>
      match t, gather tasks' with
      | Raise e, _ => Raise e
      | Ok _, Raise e => Raise e
      | Ok a, Ok rest => Ok (a :: rest)
      end
  end.

(** Lines 53-58, one critical section: the loop over [enumerate(results)]. *)
Fixpoint remove_failed (sockets : list WebSocket) (i : nat) (results : list bool)
    (st : State) : result State :=
  match results with
  | [] => mret st
  | success :: results' =>
      st' ← (if success then mret st
             else
               ws ← Py.list_getitem sockets i;
               if Py.dict_contains (active_sockets st) ws then
                 q ← Py.dict_getitem (active_sockets st) ws;
                 let needed :=
                   <[q := Z.max (Py.counter_get (frames_needed st) q - 1) 0]> (frames_needed st) in
                 remaining ← Py.dict_delitem (active_sockets st) ws;
                 mret {| active_sockets := remaining; frames_needed := needed;
                         frames := frames st |}
               else mret st);
      remove_failed sockets (S i) results' st'
  end.

(** Lines 48-58.  [st] is the shared state when the second critical section
    is entered: other handlers may have run since the snapshot was taken. *)
Definition send_to_all (send_bytes : transport) (sockets : list WebSocket)
    (frame_data : bytes) (st : State) : list event * result State :=
  let tasks := (λ ws, safe_send send_bytes ws frame_data) <$> sockets in
  ((λ ws, EvSendBytes ws frame_data) <$> sockets,
   results ← gather tasks; remove_failed sockets 0 results st).

(** ** Capture loop: [image_updater] (lines 63-107) *)

(** Line 66: [interval = 1 / 34], the binary64 quotient. *)
Definition interval : float := (1 / 34)%float.

(** The argument of [time.sleep(0.001)], line 106: the double nearest to
    one thousandth. *)
Definition poll_sleep : float := 0x1.0624dd2f1a9fcp-10%float.

(** Lines 77-78, one critical section. *)
Definition required_qualities (needed : gmap Z Z) : list Z :=
  (filter (λ p, (0 < p.2)%Z) (Py.dict_items needed)).*1.

(** Lines 105-106.  [clock] holds the values the coming calls of
    [time.perf_counter()] return; [None] when the recorded clock ends before
    the loop is left. *)
Fixpoint wait_until (next_time : float) (clock : list float)
  : option (list event * list float) :=
  match clock with
  | [] => None
  | now :: clock' =>
      if (now <? next_time)%float then
        '(evs, rest) ← wait_until next_time clock';
        Some (EvSleep poll_sleep :: evs, rest)
      else Some ([], clock')
  end.

Section Capture.

(** The camera driver and the codec are collaborators: a raw frame is any
    value, [imencode frame quality] is the result of
    [cv2.imencode(".jpg", frame, [IMWRITE_JPEG_QUALITY, quality])[1].tobytes()]. *)
Variable Frame : Type.
Variable imencode : Frame → Z → bytes.

(** What one iteration of [while True] meets: the result of
    [camera.read()] ([None] for [ret = False]) and [frames_needed] as the
    critical section of line 77 finds it. *)
Record cycle_input : Type := mkInput {
  camera_read : option Frame;
  needed_now : gmap Z Z
}.

(** The loop's own variables, the dictionary it alone writes, and the
    clock still to be read. *)
Record updater : Type := mkUpdater {
  last_time : float;
  frame_cache : gmap Z bytes;
  clock : list float
}.

(** Lines 81-96: the [for quality in required_qualities] loop. *)
Fixpoint process_qualities (frame : Frame) (required : list Z) (cache : gmap Z bytes)
  : gmap Z bytes * list event :=
  match required with
  | [] => (cache, [])
  | quality :: required' =>
      let compressed := imencode frame quality in
      let '(cache', evs) :=
        process_qualities frame required' (<[quality := compressed]> cache) in
      (cache', EvImencode quality :: EvThreadStart quality :: evs)
  end.

(** Lines 98-107: pacing. [start_time] was read at line 69. *)
Definition pace (start_time : float) (u : updater) : option (updater * list event) :=
  match clock u with
  | [] => None
  | now :: clock1 =>
      let elapsed := (now - start_time)%float in
      let sleep_time := Py.max0 (interval - elapsed) in
      let next_time := (last_time u + interval)%float in
      '(evs, clock2) ← wait_until next_time clock1;
      Some ({| last_time := next_time; frame_cache := frame_cache u; clock := clock2 |},
            EvSleep sleep_time :: evs)
  end.

(** Lines 69-107: one iteration of [while True]. *)
Definition image_updater_cycle (inp : cycle_input) (u : updater)
  : option (updater * list event) :=
  match clock u with
  | [] => None
  | start_time :: clock1 =>
      match camera_read inp with
      | None =>
          (* [continue] *)
          Some ({| last_time := last_time u; frame_cache := frame_cache u;
                   clock := clock1 |}, [])
      | Some frame =>
          let '(cache, evs) :=
            process_qualities frame (required_qualities (needed_now inp)) (frame_cache u) in
          '(u', paced) ← pace start_time
            {| last_time := last_time u; frame_cache := cache; clock := clock1 |};
          Some (u', evs ++ paced)
      end
  end.

(** The loop, run over the iterations on record. *)
Fixpoint image_updater_loop (inputs : list cycle_input) (u : updater)
  : option (updater * list event) :=
  match inputs with
  | [] => Some (u, [])
  | inp :: inputs' =>
      '(u1, evs1) ← image_updater_cycle inp u;
      '(u2, evs2) ← image_updater_loop inputs' u1;
      Some (u2, evs1 ++ evs2)
  end.

(** Lines 65-68: [last_time] starts at the first clock value. *)
Definition image_updater (inputs : list cycle_input) (cache : gmap Z bytes)
    (clock0 : list float) : option (updater * list event) :=
  match clock0 with
  | [] => None
  | t :: clock1 =>
      image_updater_loop inputs {| last_time := t; frame_cache := cache; clock := clock1 |}
  end.

End Capture.

Arguments mkInput {Frame} _ _.
Arguments camera_read {Frame} _.
Arguments needed_now {Frame} _.

(** ** The registry as the design describes it *)

(** [unsubscribe(connection)] in the design's words: look the connection's
    quality up (nothing to do if absent), remove it from the Connection Set,
    decrement the quality's counter with a floor of zero. *)
Definition unsubscribe (c : WebSocket) (st : State) : State :=
  match active_sockets st !! c with
  | None => st
  | Some q =>
      {| active_sockets := delete c (active_sockets st);
         frames_needed := <[q := Z.max (Py.counter_get (frames_needed st) q - 1) 0]> (frames_needed st);
         frames := frames st |}
  end.

(** The per-connection outcomes of one broadcast, applied in order. *)
Definition evict_all (outcomes : list (WebSocket * bool)) (st : State) : State :=
  foldl (λ (s : State) (o : WebSocket * bool), if o.2 then s else unsubscribe o.1 s)
    st outcomes.

(** Number of connections that [active_sockets] maps to [q]. *)
Definition count_at (q : Z) (sockets : gmap WebSocket Z) : nat :=
  length (filter (λ p, p.2 = q) (Py.dict_items sockets)).

(** ** Histories of the registry *)

(** The critical sections that write the shared state: a handler's
    validation and registration, a handler's [finally] block, the removal
    loop of a broadcast (with the sockets of its snapshot and the results of
    their sends), and the capture loop's store of line 89. *)
Inductive op : Type :=
| OpConnect (ws : WebSocket) (quality : Z)
| OpDisconnect (ws : WebSocket)
| OpEvict (outcomes : list (WebSocket * bool))
| OpStore (quality : Z) (compressed : bytes).

Definition apply_op (o : op) (st : State) : result State :=
  match o with
  | OpConnect ws quality => mret (websocket_endpoint_open ws quality st).1.1
  | OpDisconnect ws => websocket_endpoint_finally ws st
  | OpEvict outcomes => remove_failed outcomes.*1 0 outcomes.*2 st
  | OpStore quality compressed =>
      mret {| active_sockets := active_sockets st; frames_needed := frames_needed st;
              frames := <[quality := compressed]> (frames st) |}
  end.

Fixpoint run_ops (ops : list op) (st : State) : result State :=
  match ops with
  | [] => mret st
  | o :: ops' => st' ← apply_op o st; run_ops ops' st'
  end.

(** A handler registers the [WebSocket] object it was called with, once; a
    registered object is alive, so the object of a new call is none of the
    registered ones. *)
Definition admissible (o : op) (st : State) : Prop :=
  match o with
  | OpConnect ws _ => active_sockets st !! ws = None
  | _ => True
  end.

Inductive reachable : State → Prop :=
| reachable_init : reachable init_state
| reachable_step st o st' :
    reachable st → admissible o st → apply_op o st = Ok st' → reachable st'.

(** ** Predicates and data used by the statements *)

Definition counts_nonneg (st : State) : Prop :=
  ∀ q, (0 ≤ Py.counter_get (frames_needed st) q)%Z.

Definition counts_match (st : State) : Prop :=
  ∀ q, Py.counter_get (frames_needed st) q = Z.of_nat (count_at q (active_sockets st)).

(** A broadcast over [sockets] in which the sends to [c], and only those,
    failed. *)
Definition only_failed (c : WebSocket) (sockets : list WebSocket) : list (WebSocket * bool) :=
  (λ ws, (ws, negb (bool_decide (ws = c)))) <$> sockets.

(** The close code the design names for a refused quality: status 1008,
    "policy violation", of RFC 6455 section 7.4.1. *)
Definition policy_violation_code : Z := 1008.

(** The codes of the close frames that a trace sends to [ws]. *)
Definition close_codes (ws : WebSocket) (evs : list event) : list Z :=
  omap (λ e, match e with
             | EvClose ws' code _ => if decide (ws' = ws) then Some code else None
             | _ => None
             end) evs.

(** A running server: connections 1 and 2 at quality 50, connection 3 at
    quality 80, a frame cached for quality 50. *)
Definition demo_frame : bytes := [Byte.xff; Byte.xd8; Byte.xff; Byte.xd9].

Definition demo_state : State :=
  {| active_sockets := <[3 := 80%Z]> (<[2 := 50%Z]> (<[1 := 50%Z]> ∅));
     frames_needed := <[80%Z := 1%Z]> (<[50%Z := 2%Z]> ∅);
     frames := <[50%Z := demo_frame]> ∅ |}.

(** A network on which the sends to [bad] raise [e] and all others succeed. *)
Definition demo_transport (bad : WebSocket) (e : exn) : transport :=
  λ ws _, if Nat.eqb ws bad then Raise e else Ok ().

(** A codec for the examples: the bytes depend on the frame and the quality. *)
Definition demo_imencode (frame : nat) (quality : Z) : bytes :=
  [Byte.xff; Byte.xd8;
   default Byte.x00 (Byte.of_nat frame);
   default Byte.x00 (Byte.of_nat (Z.to_nat quality))].

(** ** Connection handler: the receive loop and its exits (lines 124-136) *)

(** Lines 126-127.  [incoming] holds what the coming calls of
    [websocket.receive_text()] do; a received text is dropped, the loop is
    left by the first exception ([None] when the record ends while the loop
    still runs). *)
Fixpoint keep_alive (incoming : list (result string)) : option exn :=
  match incoming with
  | [] => None
  | Ok _ :: incoming' => keep_alive incoming'
  | Raise e :: _ => Some e
  end.

(** Lines 124-136: [try] / [except WebSocketDisconnect: pass] / [finally].
    [st] is the shared state when the [finally] block takes the lock.  The
    handler returns normally after a [WebSocketDisconnect]; any other
    exception is raised again once the [finally] block is done, and an
    exception of the [finally] block itself would take its place. *)
Definition websocket_endpoint_serve (websocket : WebSocket)
    (incoming : list (result string)) (st : State) : option (State * result unit) :=
  e ← keep_alive incoming;
  match websocket_endpoint_finally websocket st with
  | Ok st' =>
      Some (st', match e with
                 | WebSocketDisconnect => Ok ()
                 | _ => Raise e
                 end)
  | Raise e' => Some (st, Raise e')
  end.

(** ** More predicates used by the statements *)

(** The exceptions named in the [except] clause of [safe_send], line 37. *)
Definition caught (e : exn) : bool :=
  match e with
  | WebSocketDisconnect | RuntimeError | ConnectionResetError => true
  | _ => false
  end.

(** The qualities a trace encodes, and those it starts a broadcast thread
    for, in order. *)
Definition encoded_qualities (evs : list event) : list Z :=
  omap (λ e, match e with EvImencode q => Some q | _ => None end) evs.

Definition started_broadcasts (evs : list event) : list Z :=
  omap (λ e, match e with EvThreadStart q => Some q | _ => None end) evs.

(** The durations a trace sleeps for, in order. *)
Definition slept (evs : list event) : list float :=
  omap (λ e, match e with EvSleep d => Some d | _ => None end) evs.

(** Every registered connection has a quality the handler lets through. *)
Definition qualities_valid (st : State) : Prop :=
  ∀ ws q, active_sockets st !! ws = Some q → (30 ≤ q ≤ 95)%Z.

(** Every key of a dictionary of qualities is a quality the handler lets
    through. *)
Definition keys_valid {V} (d : gmap Z V) : Prop :=
  ∀ q, is_Some (d !! q) → (30 ≤ q ≤ 95)%Z.

(** * Properties *)

(** ** The two removal paths are [unsubscribe] *)

Lemma websocket_endpoint_finally_unsubscribe ws st :
  websocket_endpoint_finally ws st = Ok (unsubscribe ws st).
Proof.
  unfold websocket_endpoint_finally, unsubscribe, Py.dict_contains,
    Py.dict_getitem, Py.dict_delitem.
  destruct (active_sockets st !! ws) as [q|] eqn:E; cbn; by rewrite ?E.
Qed.

Lemma remove_failed_evict_all pre outcomes st :
  remove_failed (pre ++ outcomes.*1) (length pre) outcomes.*2 st
  = Ok (evict_all outcomes st).
Proof.
  revert pre st. induction outcomes as [|[ws ok] outcomes IH]; intros pre st; [done|].
  cbn [fmap list_fmap fst snd remove_failed].
  replace (pre ++ ws :: outcomes.*1) with ((pre ++ [ws]) ++ outcomes.*1)
    by (by rewrite <- app_assoc).
  specialize (IH (pre ++ [ws])). rewrite length_app, Nat.add_1_r in IH.
  destruct ok; cbn.
  - apply IH.
  - unfold Py.list_getitem.
    rewrite lookup_app_l by (rewrite length_app; cbn; lia).
    rewrite lookup_app_r by lia. rewrite Nat.sub_diag. cbn.
    unfold evict_all in *. cbn. rewrite <- IH.
    unfold unsubscribe, Py.dict_contains, Py.dict_getitem, Py.dict_delitem.
    destruct (active_sockets st !! ws) as [q|] eqn:E; cbn; by rewrite ?E.
Qed.

Lemma remove_failed_outcomes outcomes st :
  remove_failed outcomes.*1 0 outcomes.*2 st = Ok (evict_all outcomes st).
Proof. apply (remove_failed_evict_all [] outcomes st). Qed.

Lemma apply_op_total o st :
  apply_op o st =
  Ok match o with
     | OpConnect ws quality => (websocket_endpoint_open ws quality st).1.1
     | OpDisconnect ws => unsubscribe ws st
     | OpEvict outcomes => evict_all outcomes st
     | OpStore quality compressed =>
         {| active_sockets := active_sockets st; frames_needed := frames_needed st;
            frames := <[quality := compressed]> (frames st) |}
     end.
Proof.
  destruct o; cbn.
  - done.
  - apply websocket_endpoint_finally_unsubscribe.
  - apply remove_failed_outcomes.
  - done.
Qed.

(** ** Counters and counting *)

Lemma counter_get_insert (c : gmap Z Z) k v q :
  Py.counter_get (<[k := v]> c) q = if decide (k = q) then v else Py.counter_get c q.
Proof.
  unfold Py.counter_get. rewrite lookup_insert. by case_decide.
Qed.

Lemma count_at_insert q ws q' (m : gmap WebSocket Z) :
  m !! ws = None →
  count_at q (<[ws := q']> m) = (if decide (q' = q) then 1 else 0) + count_at q m.
Proof.
  intros Hfresh. unfold count_at, Py.dict_items.
  rewrite (map_to_list_insert m ws q' Hfresh), filter_cons. cbn.
  by case_decide.
Qed.

Lemma count_at_delete q ws q' (m : gmap WebSocket Z) :
  m !! ws = Some q' →
  count_at q m = (if decide (q' = q) then 1 else 0) + count_at q (delete ws m).
Proof.
  intros Hin. unfold count_at, Py.dict_items.
  rewrite <- (map_to_list_delete m ws q' Hin), filter_cons. cbn.
  by case_decide.
Qed.

Lemma register_nonneg ws quality st : counts_nonneg st → counts_nonneg (register ws quality st).
Proof.
  intros H q. cbn. rewrite counter_get_insert. case_decide; [|apply H].
  specialize (H quality). lia.
Qed.

Lemma unsubscribe_nonneg ws st : counts_nonneg st → counts_nonneg (unsubscribe ws st).
Proof.
  intros H q. unfold unsubscribe. destruct (active_sockets st !! ws); [|apply H].
  cbn. rewrite counter_get_insert. case_decide; [lia|apply H].
Qed.

Lemma evict_all_nonneg outcomes st : counts_nonneg st → counts_nonneg (evict_all outcomes st).
Proof.
  revert st. induction outcomes as [|[ws ok] outcomes IH]; intros st H; [done|].
  unfold evict_all. cbn. apply IH. destruct ok; [done|]. by apply unsubscribe_nonneg.
Qed.

Lemma open_nonneg ws quality st :
  counts_nonneg st → counts_nonneg (websocket_endpoint_open ws quality st).1.1.
Proof.
  intros H. unfold websocket_endpoint_open.
  destruct (_ || _); cbn; [done|]. by apply register_nonneg.
Qed.

Lemma register_match ws quality st :
  active_sockets st !! ws = None → counts_match st → counts_match (register ws quality st).
Proof.
  intros Hfresh H q. cbn. rewrite counter_get_insert, (count_at_insert _ _ _ _ Hfresh).
  specialize (H q). case_decide; subst; lia.
Qed.

Lemma unsubscribe_match ws st : counts_match st → counts_match (unsubscribe ws st).
Proof.
  intros H q. unfold unsubscribe. destruct (active_sockets st !! ws) as [q0|] eqn:E; [|apply H].
  cbn. rewrite counter_get_insert.
  pose proof (count_at_delete q _ _ _ E) as Hq.
  pose proof (count_at_delete q0 _ _ _ E) as Hq0.
  pose proof (H q) as Cq. pose proof (H q0) as Cq0.
  rewrite decide_True in Hq0 by done.
  destruct (decide (q0 = q)) as [->|Hne]; lia.
Qed.

Lemma evict_all_match outcomes st : counts_match st → counts_match (evict_all outcomes st).
Proof.
  revert st. induction outcomes as [|[ws ok] outcomes IH]; intros st H; [done|].
  unfold evict_all. cbn. apply IH. destruct ok; [done|]. by apply unsubscribe_match.
Qed.

Lemma reachable_counts_match st : reachable st → counts_match st.
Proof.
  induction 1 as [|st o st' _ IH Hadm Hstep].
  - intros q. done.
  - rewrite apply_op_total in Hstep. injection Hstep as <-.
    destruct o as [ws quality|ws|outcomes|quality compressed]; cbn in Hadm.
    + unfold websocket_endpoint_open. destruct (_ || _); cbn; [done|].
      by apply register_match.
    + by apply unsubscribe_match.
    + by apply evict_all_match.
    + done.
Qed.

Lemma run_ops_nonneg ops st :
  counts_nonneg st → ∃ st', run_ops ops st = Ok st' ∧ counts_nonneg st'.
Proof.
  revert st. induction ops as [|o ops IH]; intros st H; cbn.
  - by exists st.
  - rewrite apply_op_total. cbn. apply IH.
    destruct o;
      [by apply open_nonneg | by apply unsubscribe_nonneg | by apply evict_all_nonneg | done].
Qed.

Lemma unsubscribe_absent c st : active_sockets st !! c = None → unsubscribe c st = st.
Proof. intros H. unfold unsubscribe. by rewrite H. Qed.

Lemma unsubscribe_gone c st : active_sockets (unsubscribe c st) !! c = None.
Proof.
  unfold unsubscribe. destruct (active_sockets st !! c) eqn:E; cbn; [|done].
  apply lookup_delete_eq.
Qed.

Lemma unsubscribe_idempotent c st : unsubscribe c (unsubscribe c st) = unsubscribe c st.
Proof. apply unsubscribe_absent, unsubscribe_gone. Qed.

Lemma only_failed_sockets c sockets : (only_failed c sockets).*1 = sockets.
Proof.
  unfold only_failed. rewrite <- list_fmap_compose. cbn.
  induction sockets as [|ws sockets IH]; cbn; by rewrite ?IH.
Qed.

Lemma evict_all_only_failed_absent c sockets st :
  active_sockets st !! c = None → evict_all (only_failed c sockets) st = st.
Proof.
  intros Habs. induction sockets as [|ws sockets IH]; [done|].
  unfold evict_all, only_failed in *. cbn. case_bool_decide; cbn; [subst|done].
  by rewrite unsubscribe_absent.
Qed.

Lemma evict_all_only_failed c sockets st :
  c ∈ sockets → evict_all (only_failed c sockets) st = unsubscribe c st.
Proof.
  induction sockets as [|ws sockets IH] in st |- *; intros Hin; [by apply elem_of_nil in Hin|].
  unfold evict_all, only_failed in *. cbn. case_bool_decide as Hws; cbn.
  - subst ws. apply (evict_all_only_failed_absent c sockets), unsubscribe_gone.
  - apply IH. apply elem_of_cons in Hin as [->|]; done.
Qed.

Lemma only_failed_results c sockets :
  (only_failed c sockets).*2 = (λ ws, negb (bool_decide (ws = c))) <$> sockets.
Proof. unfold only_failed. by rewrite <- list_fmap_compose. Qed.

Lemma remove_failed_only_failed c sockets st :
  remove_failed sockets 0 (only_failed c sockets).*2 st
  = Ok (evict_all (only_failed c sockets) st).
Proof.
  pose proof (remove_failed_outcomes (only_failed c sockets) st) as H.
  by rewrite only_failed_sockets in H.
Qed.

(** ** Demand Registry *)

(** C9: in every state that a sequence of connects, handler clean-ups and
    broadcast evictions reaches from the initial state, every quality's
    demand count is non-negative; the sequence itself never raises.  The
    floor is in the decrement: from any state whatever, either removal path
    leaves the count of the quality it decrements at zero or more. *)
Theorem demand_counter_never_negative (ops : list op) :
  (∃ st, run_ops ops init_state = Ok st
         ∧ ∀ q, (0 ≤ Py.counter_get (frames_needed st) q)%Z)
  ∧ (∀ st ws q, active_sockets st !! ws = Some q →
       ∃ st1 st2,
         websocket_endpoint_finally ws st = Ok st1
         ∧ remove_failed [ws] 0 [false] st = Ok st2
         ∧ (0 ≤ Py.counter_get (frames_needed st1) q)%Z
         ∧ (0 ≤ Py.counter_get (frames_needed st2) q)%Z).
Proof.
  split.
  - apply run_ops_nonneg. intros q. done.
  - intros st ws q Hws. exists (unsubscribe ws st), (unsubscribe ws st).
    split; [apply websocket_endpoint_finally_unsubscribe|].
    split; [apply (remove_failed_outcomes [(ws, false)])|].
    unfold unsubscribe. rewrite Hws. cbn. rewrite counter_get_insert, decide_True by done.
    lia.
Qed.

(** C10: in every reachable state, the demand count of each quality is the
    number of connections that [active_sockets] maps to it (the length of
    the broadcaster's subscriber list), so a registered connection's quality
    has a count of at least one and the clamp of the decrement changes
    nothing. *)
Theorem demand_counter_counts_subscribers (st : State) :
  reachable st →
  (∀ q, Py.counter_get (frames_needed st) q
        = Z.of_nat (length (update_websockets_for_quality q st).2))
  ∧ (∀ ws q, active_sockets st !! ws = Some q →
       Z.max (Py.counter_get (frames_needed st) q - 1) 0
       = (Py.counter_get (frames_needed st) q - 1)%Z).
Proof.
  intros Hreach. pose proof (reachable_counts_match st Hreach) as Hm. split.
  - intros q. cbn. rewrite length_fmap. apply Hm.
  - intros ws q Hws. rewrite (Hm q), (count_at_delete q ws q _ Hws), decide_True by done.
    lia.
Qed.

Lemma demand_counter_counts_subscribers_witness :
  let st := unsubscribe 1 (register 2 50 (register 1 50 init_state)) in
  reachable st
  ∧ (∀ q, Py.counter_get (frames_needed st) q
          = Z.of_nat (length (update_websockets_for_quality q st).2))
  ∧ (∀ ws q, active_sockets st !! ws = Some q →
       Z.max (Py.counter_get (frames_needed st) q - 1) 0
       = (Py.counter_get (frames_needed st) q - 1)%Z).
Proof.
  intros st.
  assert (Hreach : reachable st).
  { apply (reachable_step (register 2 50 (register 1 50 init_state)) (OpDisconnect 1));
      [|exact I|apply websocket_endpoint_finally_unsubscribe].
    apply (reachable_step (register 1 50 init_state) (OpConnect 2 50));
      [|vm_compute; reflexivity|reflexivity].
    apply (reachable_step init_state (OpConnect 1 50));
      [apply reachable_init|vm_compute; reflexivity|reflexivity]. }
  split; [exact Hreach|].
  exact (demand_counter_counts_subscribers st Hreach).
Defined.

Lemma demand_counter_never_negative_witness :
  let ops := [OpConnect 1 50; OpEvict [(1, false)]; OpDisconnect 1] in
  (∃ st, run_ops ops init_state = Ok st
         ∧ ∀ q, (0 ≤ Py.counter_get (frames_needed st) q)%Z)
  ∧ Py.counter_get (frames_needed (register 1 50 init_state)) 50 = 1%Z
  ∧ ∃ st1 st2,
      websocket_endpoint_finally 1 (register 1 50 init_state) = Ok st1
      ∧ remove_failed [1] 0 [false] (register 1 50 init_state) = Ok st2
      ∧ (0 ≤ Py.counter_get (frames_needed st1) 50)%Z
      ∧ (0 ≤ Py.counter_get (frames_needed st2) 50)%Z.
Proof.
  intros ops.
  destruct (demand_counter_never_negative ops) as [Hrun Hclamp].
  split; [exact Hrun|].
  split; [vm_compute; reflexivity|].
  apply (Hclamp (register 1 50 init_state) 1 50%Z).
  vm_compute; reflexivity.
Defined.

(** C4: registering a connection at [q] and then running its handler's
    clean-up brings the demand count of [q] back to what it was (counts
    being non-negative); a second clean-up of the same connection, from the
    handler or from a broadcast whose send to it failed, returns without an
    exception and leaves the state as the first one did. *)
Theorem subscribe_unsubscribe_roundtrip (c : WebSocket) (q : Z) (st : State) :
  ((0 ≤ Py.counter_get (frames_needed st) q)%Z →
     ∃ st', websocket_endpoint_finally c (register c q st) = Ok st'
            ∧ Py.counter_get (frames_needed st') q = Py.counter_get (frames_needed st) q)
  ∧ (∃ st1, websocket_endpoint_finally c st = Ok st1
            ∧ websocket_endpoint_finally c st1 = Ok st1
            ∧ ∀ sockets,
                remove_failed sockets 0 (only_failed c sockets).*2 st1 = Ok st1)
  ∧ (∀ sockets, c ∈ sockets →
       ∃ st1, remove_failed sockets 0 (only_failed c sockets).*2 st = Ok st1
              ∧ websocket_endpoint_finally c st = Ok st1
              ∧ websocket_endpoint_finally c st1 = Ok st1
              ∧ remove_failed sockets 0 (only_failed c sockets).*2 st1 = Ok st1).
Proof.
  pose proof (remove_failed_only_failed c) as Hevict.
  split; [|split].
  - intros Hnonneg. exists (unsubscribe c (register c q st)).
    split; [apply websocket_endpoint_finally_unsubscribe|].
    unfold unsubscribe. cbn. rewrite lookup_insert_eq. cbn.
    rewrite !counter_get_insert, !decide_True by done. lia.
  - exists (unsubscribe c st).
    rewrite !websocket_endpoint_finally_unsubscribe, unsubscribe_idempotent.
    split; [done|]. split; [done|].
    intros sockets. rewrite Hevict.
    by rewrite evict_all_only_failed_absent by apply unsubscribe_gone.
  - intros sockets Hin. exists (unsubscribe c st).
    rewrite !Hevict, !websocket_endpoint_finally_unsubscribe, unsubscribe_idempotent.
    rewrite (evict_all_only_failed c sockets st Hin).
    rewrite evict_all_only_failed_absent by apply unsubscribe_gone.
    done.
Qed.

Lemma subscribe_unsubscribe_roundtrip_witness :
  let st := register 2 50 init_state in
  (0 ≤ Py.counter_get (frames_needed st) 50)%Z
  ∧ (∃ st', websocket_endpoint_finally 1 (register 1 50 st) = Ok st'
            ∧ Py.counter_get (frames_needed st') 50 = Py.counter_get (frames_needed st) 50)
  ∧ (2 ∈ [1; 2; 3])
  ∧ (∃ st1, remove_failed [1; 2; 3] 0 (only_failed 2 [1; 2; 3]).*2 st = Ok st1
            ∧ websocket_endpoint_finally 2 st = Ok st1
            ∧ websocket_endpoint_finally 2 st1 = Ok st1
            ∧ remove_failed [1; 2; 3] 0 (only_failed 2 [1; 2; 3]).*2 st1 = Ok st1).
Proof.
  intros st.
  assert (H0 : (0 ≤ Py.counter_get (frames_needed st) 50)%Z) by (vm_compute; discriminate).
  assert (Hin : 2 ∈ [1; 2; 3]) by (apply list_elem_of_lookup; exists 1; reflexivity).
  split; [exact H0|].
  split; [exact (proj1 (subscribe_unsubscribe_roundtrip 1 50 st) H0)|].
  split; [exact Hin|].
  exact (proj2 (proj2 (subscribe_unsubscribe_roundtrip 2 50 st)) [1; 2; 3] Hin).
Defined.

(** ** Connection handler *)

(** C3, as the code has it: a quality below 30 or above 95 is answered with
    one close frame of code 1003 and reason "Invalid quality parameter", the
    handler returns and the shared state is untouched; a quality from 30 to
    95, bounds included, is accepted and registered, which raises its demand
    count by one. *)
Theorem quality_validation (ws : WebSocket) (q : Z) (st : State) :
  ((q < 30 ∨ q > 95)%Z →
     websocket_endpoint_open ws q st
     = (st, [EvClose ws 1003 "Invalid quality parameter"], Returned))
  ∧ ((30 ≤ q ≤ 95)%Z →
       websocket_endpoint_open ws q st = (register ws q st, [EvAccept ws], Serving)
       ∧ active_sockets (register ws q st) !! ws = Some q
       ∧ Py.counter_get (frames_needed (register ws q st)) q
         = (Py.counter_get (frames_needed st) q + 1)%Z).
Proof.
  unfold websocket_endpoint_open. split.
  - intros Hout.
    destruct (Z.ltb_spec q 30), (Z.gtb_spec q 95); cbn; try done; lia.
  - intros Hin.
    destruct (Z.ltb_spec q 30), (Z.gtb_spec q 95); cbn; try lia.
    split; [done|]. split; [apply lookup_insert_eq|].
    by rewrite counter_get_insert, decide_True.
Qed.

Lemma quality_validation_witness :
  ((29 < 30 ∨ 29 > 95)%Z
   ∧ websocket_endpoint_open 7 29 init_state
     = (init_state, [EvClose 7 1003 "Invalid quality parameter"], Returned))
  ∧ ((96 < 30 ∨ 96 > 95)%Z
     ∧ websocket_endpoint_open 7 96 init_state
       = (init_state, [EvClose 7 1003 "Invalid quality parameter"], Returned))
  ∧ ((30 ≤ 30 ≤ 95)%Z
     ∧ websocket_endpoint_open 7 30 init_state
       = (register 7 30 init_state, [EvAccept 7], Serving))
  ∧ ((30 ≤ 95 ≤ 95)%Z
     ∧ websocket_endpoint_open 7 95 init_state
       = (register 7 95 init_state, [EvAccept 7], Serving)).
Proof.
  assert (H29 : (29 < 30 ∨ 29 > 95)%Z) by (left; lia).
  assert (H96 : (96 < 30 ∨ 96 > 95)%Z) by (right; lia).
  assert (H30 : (30 ≤ 30 ≤ 95)%Z) by lia.
  assert (H95 : (30 ≤ 95 ≤ 95)%Z) by lia.
  split; [split|split; [split|split; split]].
  - exact H29.
  - exact (proj1 (quality_validation 7 29 init_state) H29).
  - exact H96.
  - exact (proj1 (quality_validation 7 96 init_state) H96).
  - exact H30.
  - exact (proj1 (proj2 (quality_validation 7 30 init_state) H30)).
  - exact H95.
  - exact (proj1 (proj2 (quality_validation 7 95 init_state) H95)).
Defined.

(** C3 as stated fails on the close code: for quality 29 (and 96) the one
    close frame sent carries 1003, not the policy-violation code. *)
Lemma quality_validation_counterexample :
  close_codes 7 (websocket_endpoint_open 7 29 init_state).1.2 = [1003%Z]
  ∧ close_codes 7 (websocket_endpoint_open 7 96 init_state).1.2 = [1003%Z]
  ∧ (policy_violation_code ∉ close_codes 7 (websocket_endpoint_open 7 29 init_state).1.2)
  ∧ (policy_violation_code ∉ close_codes 7 (websocket_endpoint_open 7 96 init_state).1.2).
Proof.
  assert (Hne : policy_violation_code ∉ [1003%Z]).
  { intros Hin. apply list_elem_of_singleton in Hin. discriminate Hin. }
  repeat split; try reflexivity; exact Hne.
Qed.

(** ** Broadcaster *)

Lemma elem_of_subscribers ws quality st :
  ws ∈ (update_websockets_for_quality quality st).2 ↔ active_sockets st !! ws = Some quality.
Proof.
  cbn. unfold Py.dict_items. rewrite list_elem_of_fmap. split.
  - intros [[ws' q] [-> Hin]]. apply list_elem_of_filter in Hin as [Hq Hin].
    cbn in *. subst q. by apply elem_of_map_to_list in Hin.
  - intros Hws. exists (ws, quality). split; [done|].
    apply list_elem_of_filter. split; [done|]. by apply elem_of_map_to_list.
Qed.

Lemma subscribers_NoDup quality st : NoDup (update_websockets_for_quality quality st).2.
Proof.
  cbn. unfold Py.dict_items.
  eapply sublist_NoDup; [apply (NoDup_fst_map_to_list (active_sockets st))|].
  apply fmap_sublist, sublist_filter.
Qed.

Lemma send_to_all_events send_bytes sockets frame_data st e :
  e ∈ (send_to_all send_bytes sockets frame_data st).1
  ↔ ∃ ws, ws ∈ sockets ∧ e = EvSendBytes ws frame_data.
Proof.
  cbn. rewrite list_elem_of_fmap. split; intros [ws [? ?]]; exists ws; done.
Qed.

Lemma gather_outcomes {A B} (f : A → result B) (l : list A) :
  (∀ x, x ∈ l → ∃ b, f x = Ok b) →
  ∃ outcomes : list (A * B),
    outcomes.*1 = l
    ∧ gather (f <$> l) = Ok outcomes.*2
    ∧ ∀ x b, (x, b) ∈ outcomes → x ∈ l ∧ f x = Ok b.
Proof.
  induction l as [|x l IH]; intros Hall.
  - exists []. split; [done|]. split; [done|]. intros x b Hin. by apply elem_of_nil in Hin.
  - destruct (Hall x) as [b Hb]; [left|].
    destruct IH as (outcomes & Hfst & Hgather & Hmem).
    { intros y Hy. apply Hall. by right. }
    exists ((x, b) :: outcomes). cbn. rewrite Hfst, Hb, Hgather.
    split; [done|]. split; [done|].
    intros y c [[= -> ->]|Hin]%elem_of_cons; [split; [left|done]|].
    destruct (Hmem _ _ Hin). split; [by right|done].
Qed.

Lemma gather_fmap_ok {A B} (f : A → result B) (g : A → B) (l : list A) :
  (∀ x, x ∈ l → f x = Ok (g x)) → gather (f <$> l) = Ok (g <$> l).
Proof.
  induction l as [|x l IH]; intros Hall; [done|].
  cbn. rewrite (Hall x) by left. rewrite IH; [done|]. intros y Hy. apply Hall. by right.
Qed.

Lemma unsubscribe_lookup c ws st :
  active_sockets (unsubscribe c st) !! ws
  = if decide (c = ws) then None else active_sockets st !! ws.
Proof.
  unfold unsubscribe. destruct (active_sockets st !! c) eqn:E; cbn.
  - rewrite lookup_delete. by case_decide.
  - case_decide; [by subst|done].
Qed.

Lemma evict_all_lookup outcomes ws st :
  active_sockets (evict_all outcomes st) !! ws
  = if decide ((ws, false) ∈ outcomes) then None else active_sockets st !! ws.
Proof.
  revert st. induction outcomes as [|[c ok] outcomes IH]; intros st.
  - rewrite decide_False; [done|]. apply not_elem_of_nil.
  - unfold evict_all in *. cbn. rewrite IH. clear IH.
    destruct ok; cbn.
    + destruct (decide ((ws, false) ∈ outcomes)) as [Hin|Hout].
      * rewrite decide_True; [done|by right].
      * rewrite decide_False; [done|].
        intros [[=]|?]%elem_of_cons; done.
    + rewrite unsubscribe_lookup.
      destruct (decide ((ws, false) ∈ outcomes)) as [Hin|Hout].
      * rewrite decide_True; [done|by right].
      * destruct (decide (c = ws)) as [->|Hne].
        -- rewrite decide_True; [done|by left].
        -- rewrite decide_False; [done|].
           intros [[=]|?]%elem_of_cons; done.
Qed.

Lemma evict_all_frames outcomes st : frames (evict_all outcomes st) = frames st.
Proof.
  revert st. induction outcomes as [|[c ok] outcomes IH]; intros st; [done|].
  unfold evict_all in *. cbn. rewrite IH. destruct ok; [done|].
  unfold unsubscribe. by destruct (active_sockets st !! c).
Qed.

Lemma close_codes_send_to_all send_bytes sockets frame_data st ws :
  close_codes ws (send_to_all send_bytes sockets frame_data st).1 = [].
Proof. cbn. induction sockets as [|ws' sockets IH]; [done|]. cbn. apply IH. Qed.


Lemma safe_send_caught send_bytes ws data e :
  send_bytes ws data = Raise e → caught e = true → safe_send send_bytes ws data = Ok false.
Proof. intros Hraise Hcaught. unfold safe_send. rewrite Hraise. by destruct e. Qed.

(** C2, as the code has it.  A broadcast reads the cache entry of its
    quality and the connections registered at it once, under the lock, and
    sends those bytes to every one of them, whatever any of the sends does.
    When the send to one subscriber [bad] raises one of the errors
    [safe_send] catches and the sends to all others succeed, every other
    send reports success, and the removal loop (on the state it finds when
    it takes the lock) takes [bad], and nobody else, out of
    [active_sockets] and lowers the count of the quality [bad] is
    registered at by one (floor zero), and no other count. *)
Theorem one_failure_isolated (quality : Z) (st st' : State) (send_bytes : transport)
    (bad : WebSocket) :
  let frame_data := default [] (frames st !! quality) in
  let snapshot := update_websockets_for_quality quality st in
  (snapshot.1 = frame_data
   ∧ NoDup snapshot.2
   ∧ (∀ ws, ws ∈ snapshot.2 ↔ active_sockets st !! ws = Some quality)
   ∧ (∀ ws, active_sockets st !! ws = Some quality →
        EvSendBytes ws frame_data
        ∈ (send_to_all send_bytes snapshot.2 snapshot.1 st').1)
   ∧ (∀ ws data, EvSendBytes ws data ∈ (send_to_all send_bytes snapshot.2 snapshot.1 st').1 →
        data = frame_data ∧ active_sockets st !! ws = Some quality))
  ∧ (active_sockets st !! bad = Some quality →
     (∃ e, send_bytes bad frame_data = Raise e ∧ caught e = true) →
     (∀ ws, active_sockets st !! ws = Some quality → ws ≠ bad →
        send_bytes ws frame_data = Ok ()) →
     ∃ st'',
       send_to_all send_bytes snapshot.2 snapshot.1 st'
       = ((λ ws, EvSendBytes ws frame_data) <$> snapshot.2, Ok st'')
       ∧ safe_send send_bytes bad frame_data = Ok false
       ∧ (∀ ws, active_sockets st !! ws = Some quality → ws ≠ bad →
            safe_send send_bytes ws frame_data = Ok true)
       ∧ (∀ ws, ws ≠ bad → active_sockets st'' !! ws = active_sockets st' !! ws)
       ∧ active_sockets st'' !! bad = None
       ∧ (∀ q, Py.counter_get (frames_needed st'') q
               = if decide (active_sockets st' !! bad = Some q)
                 then Z.max (Py.counter_get (frames_needed st') q - 1) 0
                 else Py.counter_get (frames_needed st') q)
       ∧ frames st'' = frames st').
Proof.
  intros frame_data snapshot.
  assert (Hdata : snapshot.1 = frame_data) by done.
  assert (Hmem : ∀ ws, ws ∈ snapshot.2 ↔ active_sockets st !! ws = Some quality)
    by (intros ws; apply elem_of_subscribers).
  split.
  - split; [done|]. split; [apply subscribers_NoDup|]. split; [done|]. split.
    + intros ws Hws. apply send_to_all_events. exists ws. split; [by apply Hmem|].
      by rewrite Hdata.
    + intros ws data [ws' [Hin [= -> ->]]]%send_to_all_events.
      split; [done|]. by apply Hmem.
  - intros Hbad (e & Hraise & Hcaught) Hothers.
    pose proof (safe_send_caught _ _ _ _ Hraise Hcaught) as Hfail.
    assert (Hsafe : ∀ ws, active_sockets st !! ws = Some quality → ws ≠ bad →
                      safe_send send_bytes ws frame_data = Ok true).
    { intros ws Hws Hne. unfold safe_send. by rewrite (Hothers ws Hws Hne). }
    exists (unsubscribe bad st'). rewrite Hdata.
    split; [|split; [done|split; [done|split; [|split; [|split]]]]].
    + unfold send_to_all. f_equal.
      rewrite (gather_fmap_ok _ (λ ws, negb (bool_decide (ws = bad)))).
      * cbn. rewrite <- only_failed_results, remove_failed_only_failed.
        f_equal. apply evict_all_only_failed. by apply Hmem.
      * intros ws Hin. case_bool_decide; cbn; [by subst|].
        apply Hsafe; [by apply Hmem|done].
    + intros ws Hne. rewrite unsubscribe_lookup. by rewrite decide_False.
    + apply unsubscribe_gone.
    + intros q. unfold unsubscribe.
      destruct (active_sockets st' !! bad) as [q0|] eqn:E; cbn.
      * rewrite counter_get_insert.
        destruct (decide (q0 = q)) as [->|Hne].
        -- by rewrite decide_True.
        -- rewrite decide_False; [done|]. by intros [=].
      * by rewrite decide_False.
    + unfold unsubscribe. by destruct (active_sockets st' !! bad).
Qed.

(** C7, as the code has it: when every send of a broadcast either succeeds
    or raises an error [safe_send] catches, the removal loop unsubscribes
    every connection whose send failed (it is gone from [active_sockets];
    counts that matched the subscribers still match them) and no other; the
    broadcast sends frames only, it closes no connection. *)
Theorem failed_deliveries_evicted (quality : Z) (st st' : State) (send_bytes : transport) :
  let frame_data := (update_websockets_for_quality quality st).1 in
  let sockets := (update_websockets_for_quality quality st).2 in
  (∀ ws, ws ∈ sockets → ∃ ok, safe_send send_bytes ws frame_data = Ok ok) →
  ∃ st'' outcomes,
    (send_to_all send_bytes sockets frame_data st').2 = Ok st''
    ∧ outcomes.*1 = sockets
    ∧ (∀ ws ok, (ws, ok) ∈ outcomes → safe_send send_bytes ws frame_data = Ok ok)
    ∧ st'' = evict_all outcomes st'
    ∧ (∀ ws, ws ∈ sockets → safe_send send_bytes ws frame_data = Ok false →
         active_sockets st'' !! ws = None)
    ∧ (∀ ws, ¬ (ws ∈ sockets ∧ safe_send send_bytes ws frame_data = Ok false) →
         active_sockets st'' !! ws = active_sockets st' !! ws)
    ∧ (counts_match st' → counts_match st'')
    ∧ (∀ ws, close_codes ws (send_to_all send_bytes sockets frame_data st').1 = []).
Proof.
  intros frame_data sockets Hall. clearbody frame_data sockets.
  destruct (gather_outcomes (λ ws, safe_send send_bytes ws frame_data) sockets Hall)
    as (outcomes & Hfst & Hgather & Hmem).
  exists (evict_all outcomes st'), outcomes.
  split; [|split; [done|split; [|split; [done|split; [|split; [|split]]]]]].
  - change ((send_to_all send_bytes sockets frame_data st').2)
      with (gather ((λ ws, safe_send send_bytes ws frame_data) <$> sockets)
            ≫= λ results, remove_failed sockets 0 results st').
    rewrite Hgather. cbn. rewrite <- Hfst. apply remove_failed_outcomes.
  - intros ws ok Hin. by apply (Hmem _ _ Hin).
  - intros ws Hin Hfail. rewrite evict_all_lookup, decide_True; [done|].
    rewrite <- Hfst in Hin. apply list_elem_of_fmap in Hin as [[ws' ok] [-> Hin]].
    destruct (Hmem _ _ Hin) as [_ Hok]. cbn in *. rewrite Hfail in Hok.
    by injection Hok as <-.
  - intros ws Hnot. rewrite evict_all_lookup, decide_False; [done|].
    intros Hin. apply Hnot. by apply Hmem.
  - apply evict_all_match.
  - intros ws. apply close_codes_send_to_all.
Qed.

Lemma demo_transport_others bad e (sockets : list WebSocket) frame_data :
  ∀ ws, ws ∈ sockets → ws ≠ bad → demo_transport bad e ws frame_data = Ok ().
Proof.
  intros ws _ Hne. unfold demo_transport. by destruct (Nat.eqb_spec ws bad).
Qed.

Lemma one_failure_isolated_witness :
  let st := demo_state in
  let send_bytes := demo_transport 2 ConnectionResetError in
  let frame_data := default [] (frames st !! 50%Z) in
  let snapshot := update_websockets_for_quality 50 st in
  active_sockets st !! 2 = Some 50%Z
  ∧ (∃ e, send_bytes 2 frame_data = Raise e ∧ caught e = true)
  ∧ (∀ ws, active_sockets st !! ws = Some 50%Z → ws ≠ 2 → send_bytes ws frame_data = Ok ())
  ∧ ∃ st'',
      send_to_all send_bytes snapshot.2 snapshot.1 st
      = ((λ ws, EvSendBytes ws frame_data) <$> snapshot.2, Ok st'')
      ∧ safe_send send_bytes 2 frame_data = Ok false
      ∧ (∀ ws, active_sockets st !! ws = Some 50%Z → ws ≠ 2 →
           safe_send send_bytes ws frame_data = Ok true)
      ∧ (∀ ws, ws ≠ 2 → active_sockets st'' !! ws = active_sockets st !! ws)
      ∧ active_sockets st'' !! 2 = None
      ∧ (∀ q, Py.counter_get (frames_needed st'') q
              = if decide (active_sockets st !! 2 = Some q)
                then Z.max (Py.counter_get (frames_needed st) q - 1) 0
                else Py.counter_get (frames_needed st) q)
      ∧ frames st'' = frames st.
Proof.
  intros st send_bytes frame_data snapshot.
  assert (Hbad : active_sockets st !! 2 = Some 50%Z) by (vm_compute; reflexivity).
  assert (Hfail : ∃ e, send_bytes 2 frame_data = Raise e ∧ caught e = true)
    by (exists ConnectionResetError; split; reflexivity).
  assert (Hothers : ∀ ws, active_sockets st !! ws = Some 50%Z → ws ≠ 2 →
                      send_bytes ws frame_data = Ok ()).
  { intros ws _ Hne. unfold send_bytes, demo_transport.
    destruct (Nat.eqb_spec ws 2) as [Heq|_]; [destruct (Hne Heq)|reflexivity]. }
  split; [exact Hbad|]. split; [exact Hfail|]. split; [exact Hothers|].
  exact (proj2 (one_failure_isolated 50 st st send_bytes 2) Hbad Hfail Hothers).
Defined.

(** C2 as stated fails for a send that fails with an error [safe_send]
    does not catch.  Connections 2 and 1 are the subscribers of quality 50;
    the send to 2 raises such an error and the send to 1 succeeds.  Both are
    sent the frame, but the exception leaves [send_to_all] before the
    removal loop: the shared state stays as it was, with connection 2 still
    registered and the count of quality 50 still 2. *)
Lemma one_failure_isolated_counterexample :
  let send_bytes := demo_transport 2 OtherError in
  update_websockets_for_quality 50 demo_state = (demo_frame, [2; 1])
  ∧ send_bytes 2 demo_frame = Raise OtherError
  ∧ send_bytes 1 demo_frame = Ok ()
  ∧ send_to_all send_bytes [2; 1] demo_frame demo_state
    = ([EvSendBytes 2 demo_frame; EvSendBytes 1 demo_frame], Raise OtherError)
  ∧ active_sockets demo_state !! 2 = Some 50%Z
  ∧ Py.counter_get (frames_needed demo_state) 50 = 2%Z.
Proof. vm_compute. repeat split. Qed.

Lemma demo_transport_caught bad (sockets : list WebSocket) frame_data :
  ∀ ws, ws ∈ sockets →
    ∃ ok, safe_send (demo_transport bad WebSocketDisconnect) ws frame_data = Ok ok.
Proof.
  intros ws _. unfold safe_send, demo_transport. destruct (Nat.eqb ws bad); eauto.
Qed.

Lemma failed_deliveries_evicted_witness :
  let st := demo_state in
  let send_bytes := demo_transport 2 WebSocketDisconnect in
  let frame_data := (update_websockets_for_quality 50 st).1 in
  let sockets := (update_websockets_for_quality 50 st).2 in
  (∀ ws, ws ∈ sockets → ∃ ok, safe_send send_bytes ws frame_data = Ok ok)
  ∧ safe_send send_bytes 2 frame_data = Ok false
  ∧ ∃ st'' outcomes,
      (send_to_all send_bytes sockets frame_data st).2 = Ok st''
      ∧ outcomes.*1 = sockets
      ∧ (∀ ws ok, (ws, ok) ∈ outcomes → safe_send send_bytes ws frame_data = Ok ok)
      ∧ st'' = evict_all outcomes st
      ∧ (∀ ws, ws ∈ sockets → safe_send send_bytes ws frame_data = Ok false →
           active_sockets st'' !! ws = None)
      ∧ (∀ ws, ¬ (ws ∈ sockets ∧ safe_send send_bytes ws frame_data = Ok false) →
           active_sockets st'' !! ws = active_sockets st !! ws)
      ∧ (counts_match st → counts_match st'')
      ∧ (∀ ws, close_codes ws (send_to_all send_bytes sockets frame_data st).1 = []).
Proof.
  intros st send_bytes frame_data sockets.
  pose proof (demo_transport_caught 2 sockets frame_data) as Hall.
  split; [exact Hall|]. split; [reflexivity|].
  exact (failed_deliveries_evicted 50 st st send_bytes Hall).
Defined.

(** C7 as stated fails on the transport: connection 2, whose send raised
    [WebSocketDisconnect], is unsubscribed, but the whole broadcast consists
    of the two sends; no close of connection 2 (or of any other) is in it. *)
Lemma failed_deliveries_evicted_counterexample :
  let send_bytes := demo_transport 2 WebSocketDisconnect in
  update_websockets_for_quality 50 demo_state = (demo_frame, [2; 1])
  ∧ safe_send send_bytes 2 demo_frame = Ok false
  ∧ send_to_all send_bytes [2; 1] demo_frame demo_state
    = ([EvSendBytes 2 demo_frame; EvSendBytes 1 demo_frame], Ok (unsubscribe 2 demo_state))
  ∧ active_sockets (unsubscribe 2 demo_state) !! 2 = None
  ∧ Py.counter_get (frames_needed (unsubscribe 2 demo_state)) 50 = 1%Z
  ∧ close_codes 2 [EvSendBytes 2 demo_frame; EvSendBytes 1 demo_frame] = [].
Proof. vm_compute. repeat split. Qed.

(** ** Capture loop *)

Lemma elem_of_required_qualities (needed : gmap Z Z) q :
  q ∈ required_qualities needed ↔ (0 < Py.counter_get needed q)%Z.
Proof.
  unfold required_qualities, Py.dict_items, Py.counter_get.
  rewrite list_elem_of_fmap. split.
  - intros [[q' n] [-> Hin]]. apply list_elem_of_filter in Hin as [Hpos Hin].
    apply elem_of_map_to_list in Hin. cbn in *. by rewrite Hin.
  - intros Hpos. destruct (needed !! q) as [n|] eqn:E; cbn in Hpos; [|lia].
    exists (q, n). split; [done|]. apply list_elem_of_filter. split; [done|].
    by apply elem_of_map_to_list.
Qed.

Lemma wait_until_reaches next_time (waits : list float) t_end later :
  Forall (λ t, (t <? next_time)%float = true) waits →
  (t_end <? next_time)%float = false →
  wait_until next_time (waits ++ t_end :: later)
  = Some (replicate (length waits) (EvSleep poll_sleep), later).
Proof.
  intros Hwaits Hend. induction Hwaits as [|t waits Ht _ IH]; cbn.
  - by rewrite Hend.
  - by rewrite Ht, IH.
Qed.

Lemma wait_until_total next_time (clock : list float) :
  Exists (λ t, (t <? next_time)%float = false) clock →
  ∃ evs later, wait_until next_time clock = Some (evs, later).
Proof.
  induction 1 as [t clock Ht|t clock _ IH]; cbn.
  - rewrite Ht. eauto.
  - destruct (t <? next_time)%float; [|eauto].
    destruct IH as (evs & later & ->). cbn. eauto.
Qed.

Section CaptureProperties.

Variable Frame : Type.
Variable imencode : Frame → Z → bytes.

Lemma process_qualities_lookup frame required cache q :
  (process_qualities Frame imencode frame required cache).1 !! q
  = if decide (q ∈ required) then Some (imencode frame q) else cache !! q.
Proof.
  revert cache. induction required as [|q' required IH]; intros cache; cbn.
  - rewrite decide_False; [done|apply not_elem_of_nil].
  - specialize (IH (<[q' := imencode frame q']> cache)).
    destruct (process_qualities _ _ _ _ _) as [cache' evs]. cbn in *. rewrite IH.
    destruct (decide (q ∈ required)) as [Hin|Hout].
    + rewrite decide_True; [done|by right].
    + destruct (decide (q = q')) as [->|Hne].
      * rewrite decide_True by left. apply lookup_insert_eq.
      * rewrite decide_False by (intros [?|?]%elem_of_cons; done).
        by apply lookup_insert_ne.
Qed.

Lemma process_qualities_events frame required cache :
  (process_qualities Frame imencode frame required cache).2
  = required ≫= λ q, [EvImencode q; EvThreadStart q].
Proof.
  revert cache. induction required as [|q' required IH]; intros cache; cbn; [done|].
  specialize (IH (<[q' := imencode frame q']> cache)).
  destruct (process_qualities _ _ _ _ _) as [cache' evs]. cbn in *. by rewrite IH.
Qed.

Lemma image_updater_cycle_read frame needed lt cache t0 t1 later :
  image_updater_cycle Frame imencode (mkInput (Some frame) needed)
    (mkUpdater lt cache (t0 :: t1 :: later))
  = '(evs, later') ← wait_until (lt + interval)%float later;
    Some (mkUpdater (lt + interval)%float
            (process_qualities Frame imencode frame (required_qualities needed) cache).1
            later',
          (process_qualities Frame imencode frame (required_qualities needed) cache).2
          ++ EvSleep (Py.max0 (interval - (t1 - t0))) :: evs).
Proof.
  unfold image_updater_cycle, pace. cbn.
  destruct (process_qualities _ _ _ _ _) as [cache' evs]. cbn.
  destruct (wait_until _ later) as [[evw later']|]; done.
Qed.

Lemma image_updater_cycle_deadline inp u u' evs :
  image_updater_cycle Frame imencode inp u = Some (u', evs) →
  last_time u'
  = match camera_read inp with
    | Some _ => (last_time u + interval)%float
    | None => last_time u
    end.
Proof.
  destruct inp as [[frame|] needed], u as [lt cache [|t0 clock1]]; try done.
  - destruct clock1 as [|t1 later].
    + unfold image_updater_cycle, pace. cbn.
      by destruct (process_qualities _ _ _ _ _).
    + rewrite image_updater_cycle_read.
      destruct (wait_until _ later) as [[evw later']|]; cbn; [|done].
      by intros [= <- _].
  - cbn. by intros [= <- _].
Qed.

Lemma image_updater_loop_deadline inputs u u' evs :
  image_updater_loop Frame imencode inputs u = Some (u', evs) →
  last_time u'
  = Nat.iter (length (filter (λ inp, is_Some (camera_read inp)) inputs))
      (λ t, (t + interval)%float) (last_time u).
Proof.
  revert u u' evs. induction inputs as [|inp inputs IH]; intros u u' evs Hrun; cbn in Hrun.
  - by injection Hrun as <- _.
  - destruct (image_updater_cycle _ _ inp u) as [[u1 evs1]|] eqn:Hcycle; cbn in Hrun; [|done].
    destruct (image_updater_loop _ _ inputs u1) as [[u2 evs2]|] eqn:Hloop; cbn in Hrun; [|done].
    injection Hrun as <- _.
    rewrite (IH _ _ _ Hloop), (image_updater_cycle_deadline _ _ _ _ Hcycle).
    rewrite filter_cons. destruct (camera_read inp); cbn.
    + rewrite decide_True by eauto. cbn [length]. by rewrite Nat.iter_succ_r.
    + rewrite decide_False; [done|]. by intros [? [=]].
Qed.

(** C1: in a cycle whose camera read succeeds (and whose clock lets it
    end), every quality with a positive demand count at the registry query
    is encoded from this cycle's frame, its cache entry holds exactly those
    bytes when the cycle ends, and a broadcast thread is started for it. *)
Theorem capture_refreshes_cache (frame : Frame) (needed : gmap Z Z) (lt : float)
    (cache : gmap Z bytes) (t0 t1 : float) (later : list float) (q : Z) :
  (0 < Py.counter_get needed q)%Z →
  Exists (λ t, (t <? lt + interval)%float = false) later →
  ∃ u' evs,
    image_updater_cycle Frame imencode (mkInput (Some frame) needed)
      (mkUpdater lt cache (t0 :: t1 :: later)) = Some (u', evs)
    ∧ frame_cache u' !! q = Some (imencode frame q)
    ∧ EvImencode q ∈ evs
    ∧ EvThreadStart q ∈ evs.
Proof.
  intros Hpos Hclock. rewrite image_updater_cycle_read.
  destruct (wait_until_total _ _ Hclock) as (evw & later' & ->). cbn.
  apply elem_of_required_qualities in Hpos.
  eexists _, _. split; [done|]. cbn. split; [|split].
  - rewrite process_qualities_lookup. by rewrite decide_True.
  - apply elem_of_app. left. rewrite process_qualities_events.
    apply list_elem_of_bind. exists q. split; [left|done].
  - apply elem_of_app. left. rewrite process_qualities_events.
    apply list_elem_of_bind. exists q. split; [right; left|done].
Qed.

(** C5, as the code has it: a cycle whose camera read fails encodes
    nothing, leaves the frame cache as it was and starts no broadcast; it
    also sleeps not at all and leaves the pacing deadline where it was: the
    loop goes straight on to the next iteration. *)
Theorem failed_read_skips_cycle (needed : gmap Z Z) (lt : float) (cache : gmap Z bytes)
    (t0 : float) (later : list float) (inputs : list (cycle_input Frame)) :
  let inp := mkInput None needed in
  let u := mkUpdater lt cache (t0 :: later) in
  let u' := mkUpdater lt cache later in
  image_updater_cycle Frame imencode inp u = Some (u', [])
  ∧ image_updater_loop Frame imencode (inp :: inputs) u
    = image_updater_loop Frame imencode inputs u'.
Proof.
  intros inp u u'. subst inp u u'. split; [done|]. cbn.
  by destruct (image_updater_loop _ _ inputs _) as [[u2 evs2]|].
Qed.

(** C8, as the code has it: the period is the double [1 / 34]; a cycle whose
    camera read succeeds sleeps for what is left of the period since its
    start, polls the clock until it is not before the previous deadline plus
    the period, and makes that sum the new deadline, whatever the clock
    read; over any run the deadline is the initial one plus one period per
    cycle whose read succeeded (a cycle whose read failed leaves it as it
    was). *)
Theorem pacing_deadline (frame : Frame) (needed : gmap Z Z) (lt : float)
    (cache : gmap Z bytes) (t0 t1 : float) (waits : list float) (t_end : float)
    (later : list float) :
  Forall (λ t, (t <? lt + interval)%float = true) waits →
  (t_end <? lt + interval)%float = false →
  interval = (1 / 34)%float
  ∧ (∃ cache' evs,
       image_updater_cycle Frame imencode (mkInput (Some frame) needed)
         (mkUpdater lt cache (t0 :: t1 :: waits ++ t_end :: later))
       = Some (mkUpdater (lt + interval)%float cache' later,
               evs ++ EvSleep (Py.max0 (interval - (t1 - t0)))
                   :: replicate (length waits) (EvSleep poll_sleep)))
  ∧ (∀ inputs u u' evs,
       image_updater_loop Frame imencode inputs u = Some (u', evs) →
       last_time u'
       = Nat.iter (length (filter (λ inp, is_Some (camera_read inp)) inputs))
           (λ t, (t + interval)%float) (last_time u)).
Proof.
  intros Hwaits Hend. split; [done|]. split.
  - rewrite image_updater_cycle_read, (wait_until_reaches _ _ _ _ Hwaits Hend). cbn.
    by eexists _, _.
  - apply image_updater_loop_deadline.
Qed.

End CaptureProperties.

Lemma capture_refreshes_cache_witness :
  let needed := frames_needed demo_state in
  let later := [0.03125%float] in
  (0 < Py.counter_get needed 50)%Z
  ∧ Exists (λ t, (t <? 0 + interval)%float = false) later
  ∧ ∃ u' evs,
      image_updater_cycle nat demo_imencode (mkInput (Some 7) needed)
        (mkUpdater 0 (frames demo_state) (0%float :: 0.0078125%float :: later))
      = Some (u', evs)
      ∧ frame_cache u' !! 50%Z = Some (demo_imencode 7 50)
      ∧ EvImencode 50 ∈ evs
      ∧ EvThreadStart 50 ∈ evs.
Proof.
  intros needed later.
  assert (Hpos : (0 < Py.counter_get needed 50)%Z) by (vm_compute; reflexivity).
  assert (Hclock : Exists (λ t, (t <? 0 + interval)%float = false) later)
    by (apply Exists_cons_hd; vm_compute; reflexivity).
  split; [exact Hpos|]. split; [exact Hclock|].
  exact (capture_refreshes_cache nat demo_imencode 7 needed 0 (frames demo_state)
           0 0.0078125 later 50 Hpos Hclock).
Defined.

(** C5 as stated fails on the pacing: two failed reads in a row take two
    clock values (the two [start_time]s) and do nothing else; no sleep lies
    between the first capture and the second. *)
Lemma failed_read_skips_cycle_counterexample :
  let inp := mkInput (Frame := nat) None (frames_needed demo_state) in
  let u := mkUpdater 0 (frames demo_state) [1; 2; 3]%float in
  image_updater_cycle nat demo_imencode inp u
  = Some (mkUpdater 0 (frames demo_state) [2; 3]%float, [])
  ∧ image_updater_loop nat demo_imencode [inp; inp] u
    = Some (mkUpdater 0 (frames demo_state) [3]%float, [])
  ∧ ∀ seconds, EvSleep seconds ∉ ([] : list event).
Proof.
  intros inp u. split; [reflexivity|]. split; [reflexivity|].
  intros seconds. apply not_elem_of_nil.
Qed.

Lemma pacing_deadline_witness :
  let waits := [0.25; 0.5]%float in
  Forall (λ t, (t <? 1 + interval)%float = true) waits
  ∧ (2 <? 1 + interval)%float = false
  ∧ interval = (1 / 34)%float
  ∧ (∃ cache' evs,
       image_updater_cycle nat demo_imencode (mkInput (Some 7) (frames_needed demo_state))
         (mkUpdater 1 (frames demo_state)
            (0.125%float :: 0.25%float :: waits ++ 2%float :: [3%float]))
       = Some (mkUpdater (1 + interval)%float cache' [3%float],
               evs ++ EvSleep (Py.max0 (interval - (0.25 - 0.125)))
                   :: replicate (length waits) (EvSleep poll_sleep)))
  ∧ (∀ inputs u u' evs,
       image_updater_loop nat demo_imencode inputs u = Some (u', evs) →
       last_time u'
       = Nat.iter (length (filter (λ inp, is_Some (camera_read inp)) inputs))
           (λ t, (t + interval)%float) (last_time u)).
Proof.
  intros waits.
  assert (Hwaits : Forall (λ t, (t <? 1 + interval)%float = true) waits)
    by (repeat constructor).
  assert (Hend : (2 <? 1 + interval)%float = false) by reflexivity.
  split; [exact Hwaits|]. split; [exact Hend|].
  exact (pacing_deadline nat demo_imencode 7 (frames_needed demo_state) 1
           (frames demo_state) 0.125 0.25 waits 2 [3%float] Hwaits Hend).
Defined.

(** C8 as stated fails for a cycle whose camera read fails: it computes no
    deadline, the one in force stays 1 and is not 1 plus the period. *)
Lemma pacing_deadline_counterexample :
  let inp := mkInput (Frame := nat) None (frames_needed demo_state) in
  let u := mkUpdater 1 (frames demo_state) [2; 3]%float in
  image_updater_cycle nat demo_imencode inp u
  = Some (mkUpdater 1 (frames demo_state) [3]%float, [])
  ∧ (1 =? 1 + interval)%float = false
  ∧ (1 <? 1 + interval)%float = true.
Proof. intros inp u. repeat split. Qed.

(** * Further properties of the code *)

(** ** Broadcaster: what leaves [send_to_all] *)

Lemma safe_send_raise send_bytes ws data e :
  safe_send send_bytes ws data = Raise e ↔ send_bytes ws data = Raise e ∧ caught e = false.
Proof.
  unfold safe_send. destruct (send_bytes ws data) as [[]|e'].
  - split; [done|]. by intros [? _].
  - destruct e'; (split; [intros [= <-]; done | intros [[= <-] Hc]; done]).
Qed.

Lemma gather_length {A} (tasks : list (result A)) results :
  gather tasks = Ok results → length results = length tasks.
Proof.
  revert results. induction tasks as [|t tasks IH]; intros results; cbn.
  - by intros [= <-].
  - destruct t as [a|e]; [|done]. destruct (gather tasks) as [rest|e]; [|done].
    intros [= <-]. cbn. by rewrite (IH rest).
Qed.

Lemma gather_ok_all {A} (tasks : list (result A)) results :
  gather tasks = Ok results → ∀ t, t ∈ tasks → ∃ a, t = Ok a.
Proof.
  revert results. induction tasks as [|t tasks IH]; intros results; cbn.
  - intros _ t Hin. by apply elem_of_nil in Hin.
  - destruct t as [a|e]; [|done]. destruct (gather tasks) as [rest|e]; [|done].
    intros _ t [->|Hin]%elem_of_cons; [eauto|]. by apply (IH rest).
Qed.

Lemma gather_raise_elem {A} (tasks : list (result A)) e :
  gather tasks = Raise e → Raise e ∈ tasks.
Proof.
  induction tasks as [|t tasks IH]; cbn; [done|].
  destruct t as [a|e']; [|intros [= ->]; left].
  destruct (gather tasks) as [rest|e']; [done|].
  intros [= ->]. right. by apply IH.
Qed.

Lemma remove_failed_step sockets i success results st :
  remove_failed sockets i (success :: results) st
  = if success then remove_failed sockets (S i) results st
    else Py.list_getitem sockets i ≫= λ ws,
         remove_failed sockets (S i) results (unsubscribe ws st).
Proof.
  cbn [remove_failed]. destruct success; [done|].
  unfold Py.list_getitem. destruct (sockets !! i) as [ws|]; cbn; [|done].
  unfold unsubscribe, Py.dict_contains, Py.dict_getitem, Py.dict_delitem.
  destruct (active_sockets st !! ws) as [q|] eqn:E; cbn; by rewrite ?E.
Qed.

Lemma remove_failed_in_bounds sockets i results st :
  i + length results ≤ length sockets → ∃ st', remove_failed sockets i results st = Ok st'.
Proof.
  revert i st. induction results as [|success results IH]; intros i st Hlen; cbn in Hlen.
  - by exists st.
  - rewrite remove_failed_step. destruct success.
    + apply IH. lia.
    + unfold Py.list_getitem.
      destruct (lookup_lt_is_Some_2 sockets i) as [ws ->]; [lia|]. cbn.
      apply IH. lia.
Qed.

(** X1: the bookkeeping of a broadcast raises nothing of its own.  Whatever
    the network does, every socket of the snapshot is sent the frame; then
    either every send returned or failed with a caught error, and the
    removal loop ends normally, or the exception that leaves [send_to_all]
    is one that [send_bytes] raised for a socket of the snapshot and that
    [safe_send] does not catch - and then the removal loop has not run. *)
Theorem broadcast_outcome (send_bytes : transport) (sockets : list WebSocket)
    (frame_data : bytes) (st : State) :
  (send_to_all send_bytes sockets frame_data st).1
  = (λ ws, EvSendBytes ws frame_data) <$> sockets
  ∧ match (send_to_all send_bytes sockets frame_data st).2 with
    | Ok st' =>
        ∀ ws, ws ∈ sockets → ∃ ok, safe_send send_bytes ws frame_data = Ok ok
    | Raise e =>
        gather ((λ ws, safe_send send_bytes ws frame_data) <$> sockets) = Raise e
        ∧ ∃ ws, ws ∈ sockets ∧ send_bytes ws frame_data = Raise e ∧ caught e = false
    end
  ∧ ((∀ ws, ws ∈ sockets → ∃ ok, safe_send send_bytes ws frame_data = Ok ok) →
       ∃ st', (send_to_all send_bytes sockets frame_data st).2 = Ok st').
Proof.
  split; [done|].
  change ((send_to_all send_bytes sockets frame_data st).2)
    with (gather ((λ ws, safe_send send_bytes ws frame_data) <$> sockets)
          ≫= λ results, remove_failed sockets 0 results st).
  destruct (gather _) as [results|e] eqn:Hgather; cbn.
  - pose proof (gather_length _ _ Hgather) as Hlen. rewrite length_fmap in Hlen.
    destruct (remove_failed_in_bounds sockets 0 results st) as [st' Hst']; [cbn; lia|].
    rewrite Hst'. split; [|eauto].
    intros ws Hin.
    destruct (gather_ok_all _ _ Hgather (safe_send send_bytes ws frame_data)) as [ok Hok].
    { apply list_elem_of_fmap. by exists ws. }
    by exists ok.
  - split.
    + split; [done|].
      apply gather_raise_elem, list_elem_of_fmap in Hgather as [ws [Hws Hin]].
      exists ws. split; [done|]. by apply safe_send_raise.
    + intros Hall.
      apply gather_raise_elem, list_elem_of_fmap in Hgather as [ws [Hws Hin]].
      destruct (Hall ws Hin) as [ok Hok]. congruence.
Qed.

Lemma unsubscribe_frames c st : frames (unsubscribe c st) = frames st.
Proof. unfold unsubscribe. by destruct (active_sockets st !! c). Qed.

Lemma unsubscribe_counter c st q :
  Py.counter_get (frames_needed (unsubscribe c st)) q
  = if decide (active_sockets st !! c = Some q)
    then Z.max (Py.counter_get (frames_needed st) q - 1) 0
    else Py.counter_get (frames_needed st) q.
Proof.
  unfold unsubscribe. destruct (active_sockets st !! c) as [q0|] eqn:E; cbn.
  - rewrite counter_get_insert. destruct (decide (q0 = q)) as [->|Hne].
    + by rewrite decide_True.
    + rewrite decide_False; [done|]. by intros [=].
  - by rewrite decide_False.
Qed.

Lemma remove_failed_only_removes sockets i results st st' :
  remove_failed sockets i results st = Ok st' →
  frames st' = frames st
  ∧ (∀ ws, active_sockets st' !! ws = active_sockets st !! ws
           ∨ (ws ∈ sockets ∧ active_sockets st' !! ws = None))
  ∧ (counts_nonneg st →
       ∀ q, (0 ≤ Py.counter_get (frames_needed st') q ≤ Py.counter_get (frames_needed st) q)%Z).
Proof.
  revert i st. induction results as [|success results IH]; intros i st.
  - cbn. intros [= <-]. split; [done|]. split; [by left|]. intros Hnn q.
    specialize (Hnn q). lia.
  - rewrite remove_failed_step. destruct success; [apply IH|].
    unfold Py.list_getitem. destruct (sockets !! i) as [c|] eqn:Hc; cbn; [|done].
    intros Hrest. destruct (IH _ _ Hrest) as (Hfr & Hact & Hcnt).
    split; [by rewrite Hfr, unsubscribe_frames|]. split.
    + intros ws. destruct (Hact ws) as [Heq|[Hin Hnone]]; [|by right].
      destruct (decide (c = ws)) as [->|Hne].
      * right. split; [by apply list_elem_of_lookup_2 in Hc|].
        rewrite Heq. apply unsubscribe_gone.
      * left. by rewrite Heq, unsubscribe_lookup, decide_False.
    + intros Hnn q. specialize (Hcnt (unsubscribe_nonneg c st Hnn) q).
      rewrite unsubscribe_counter in Hcnt. specialize (Hnn q).
      destruct (decide (active_sockets st !! c = Some q)); lia.
Qed.

(** X2: a broadcast that ends normally only ever removes.  It leaves the
    frame cache alone, every connection it leaves registered keeps its
    quality, a connection that was not in its snapshot (one that subscribed
    after the snapshot was taken, say) is never removed, and no demand count
    goes up (counts that were non-negative stay so). *)
Theorem broadcast_only_removes (send_bytes : transport) (sockets : list WebSocket)
    (frame_data : bytes) (st st' : State) :
  (send_to_all send_bytes sockets frame_data st).2 = Ok st' →
  frames st' = frames st
  ∧ (∀ ws q, active_sockets st' !! ws = Some q → active_sockets st !! ws = Some q)
  ∧ (∀ ws, ws ∉ sockets → active_sockets st' !! ws = active_sockets st !! ws)
  ∧ (counts_nonneg st →
       ∀ q, (0 ≤ Py.counter_get (frames_needed st') q ≤ Py.counter_get (frames_needed st) q)%Z).
Proof.
  change ((send_to_all send_bytes sockets frame_data st).2)
    with (gather ((λ ws, safe_send send_bytes ws frame_data) <$> sockets)
          ≫= λ results, remove_failed sockets 0 results st).
  destruct (gather _) as [results|e]; cbn; [|done].
  intros Hrun. destruct (remove_failed_only_removes _ _ _ _ _ Hrun) as (Hfr & Hact & Hcnt).
  split; [done|]. split; [|split; [|done]].
  - intros ws q Hq. destruct (Hact ws) as [Heq|[_ Hnone]]; congruence.
  - intros ws Hout. destruct (Hact ws) as [Heq|[Hin _]]; done.
Qed.

Lemma broadcast_only_removes_witness :
  let send_bytes := demo_transport 2 ConnectionResetError in
  let st' := unsubscribe 2 demo_state in
  (send_to_all send_bytes [2; 1] demo_frame demo_state).2 = Ok st'
  ∧ frames st' = frames demo_state
  ∧ (∀ ws q, active_sockets st' !! ws = Some q → active_sockets demo_state !! ws = Some q)
  ∧ (∀ ws, ws ∉ [2; 1] → active_sockets st' !! ws = active_sockets demo_state !! ws)
  ∧ (counts_nonneg demo_state →
       ∀ q, (0 ≤ Py.counter_get (frames_needed st') q
             ≤ Py.counter_get (frames_needed demo_state) q)%Z).
Proof.
  intros send_bytes st'.
  assert (Hrun : (send_to_all send_bytes [2; 1] demo_frame demo_state).2 = Ok st')
    by (vm_compute; reflexivity).
  split; [exact Hrun|].
  exact (broadcast_only_removes send_bytes [2; 1] demo_frame demo_state st' Hrun).
Defined.

(** ** Registry: the order of two removals *)

Lemma unsubscribe_present c q st :
  active_sockets st !! c = Some q →
  unsubscribe c st
  = {| active_sockets := delete c (active_sockets st);
       frames_needed :=
         <[q := Z.max (Py.counter_get (frames_needed st) q - 1) 0]> (frames_needed st);
       frames := frames st |}.
Proof. intros H. unfold unsubscribe. by rewrite H. Qed.

Lemma unsubscribe_comm a b st :
  unsubscribe a (unsubscribe b st) = unsubscribe b (unsubscribe a st).
Proof.
  destruct (decide (a = b)) as [->|Hne]; [done|].
  destruct (active_sockets st !! a) as [qa|] eqn:Ea.
  2:{ rewrite (unsubscribe_absent a st Ea). apply unsubscribe_absent.
      by rewrite unsubscribe_lookup, decide_False. }
  destruct (active_sockets st !! b) as [qb|] eqn:Eb.
  2:{ rewrite (unsubscribe_absent b st Eb). symmetry. apply unsubscribe_absent.
      by rewrite unsubscribe_lookup, decide_False. }
  rewrite (unsubscribe_present a qa (unsubscribe b st))
    by (by rewrite unsubscribe_lookup, decide_False).
  rewrite (unsubscribe_present b qb (unsubscribe a st))
    by (by rewrite unsubscribe_lookup, decide_False).
  rewrite (unsubscribe_present a qa st Ea), (unsubscribe_present b qb st Eb). cbn.
  f_equal.
  - apply delete_delete.
  - rewrite !counter_get_insert. destruct (decide (qb = qa)) as [->|Hq].
    + rewrite decide_True by done. by rewrite !insert_insert_eq.
    + rewrite decide_False by done. by apply insert_insert_ne.
Qed.

Lemma evict_all_unsubscribe_comm outcomes c st :
  evict_all outcomes (unsubscribe c st) = unsubscribe c (evict_all outcomes st).
Proof.
  revert st. induction outcomes as [|[ws ok] outcomes IH]; intros st; [done|].
  unfold evict_all in *. cbn. destruct ok; cbn; [apply IH|].
  by rewrite unsubscribe_comm, IH.
Qed.

(** X3: the handler's clean-up of one connection and the removal loop of a
    broadcast (over any snapshot, with any results) may take the lock in
    either order: neither raises, and the shared state they leave is the
    same. *)
Theorem removal_order_irrelevant (ws : WebSocket) (outcomes : list (WebSocket * bool))
    (st : State) :
  ∃ st',
    (websocket_endpoint_finally ws st
       ≫= λ st1, remove_failed outcomes.*1 0 outcomes.*2 st1) = Ok st'
    ∧ (remove_failed outcomes.*1 0 outcomes.*2 st
         ≫= λ st2, websocket_endpoint_finally ws st2) = Ok st'.
Proof.
  exists (unsubscribe ws (evict_all outcomes st)).
  rewrite websocket_endpoint_finally_unsubscribe, remove_failed_outcomes. cbn.
  rewrite websocket_endpoint_finally_unsubscribe, remove_failed_outcomes.
  by rewrite evict_all_unsubscribe_comm.
Qed.

(** ** Handler and broadcaster: who is in a snapshot *)

(** X4: once a handler has registered its connection at an accepted quality
    [q], the broadcaster's snapshot for a quality holds that connection
    exactly when the quality is [q], and the snapshots of the other
    connections are what they were; once the handler's [finally] block has
    run, no snapshot of any quality holds the connection.  In any state, the
    snapshots of two different qualities share no connection. *)
Theorem handler_subscription_roundtrip (ws : WebSocket) (q : Z) (st : State) :
  (30 ≤ q ≤ 95)%Z →
  let st1 := (websocket_endpoint_open ws q st).1.1 in
  (∀ q', ws ∈ (update_websockets_for_quality q' st1).2 ↔ q' = q)
  ∧ (∀ ws' q', ws' ≠ ws →
       ws' ∈ (update_websockets_for_quality q' st1).2
       ↔ ws' ∈ (update_websockets_for_quality q' st).2)
  ∧ (∃ st2, websocket_endpoint_finally ws st1 = Ok st2
            ∧ ∀ q', ws ∉ (update_websockets_for_quality q' st2).2)
  ∧ (∀ s c q1 q2,
       c ∈ (update_websockets_for_quality q1 s).2 →
       c ∈ (update_websockets_for_quality q2 s).2 → q1 = q2).
Proof.
  intros Hq st1.
  assert (Hst1 : st1 = register ws q st).
  { subst st1. unfold websocket_endpoint_open.
    destruct (Z.ltb_spec q 30), (Z.gtb_spec q 95); cbn; try lia. done. }
  rewrite Hst1. split; [|split; [|split]].
  - intros q'. rewrite elem_of_subscribers. cbn. rewrite lookup_insert_eq.
    split; [by intros [= <-]|by intros ->].
  - intros ws' q' Hne. rewrite !elem_of_subscribers. cbn.
    by rewrite lookup_insert_ne.
  - exists (unsubscribe ws (register ws q st)).
    split; [apply websocket_endpoint_finally_unsubscribe|].
    intros q'. rewrite elem_of_subscribers, unsubscribe_gone. done.
  - intros s c q1 q2. rewrite !elem_of_subscribers. congruence.
Qed.

Lemma handler_subscription_roundtrip_witness :
  let st1 := (websocket_endpoint_open 9 80 demo_state).1.1 in
  (30 ≤ 80 ≤ 95)%Z
  ∧ (∀ q', 9 ∈ (update_websockets_for_quality q' st1).2 ↔ q' = 80%Z)
  ∧ (∀ ws' q', ws' ≠ 9 →
       ws' ∈ (update_websockets_for_quality q' st1).2
       ↔ ws' ∈ (update_websockets_for_quality q' demo_state).2)
  ∧ (∃ st2, websocket_endpoint_finally 9 st1 = Ok st2
            ∧ ∀ q', 9 ∉ (update_websockets_for_quality q' st2).2)
  ∧ (∀ s c q1 q2,
       c ∈ (update_websockets_for_quality q1 s).2 →
       c ∈ (update_websockets_for_quality q2 s).2 → q1 = q2).
Proof.
  intros st1.
  assert (Hq : (30 ≤ 80 ≤ 95)%Z) by lia.
  split; [exact Hq|].
  exact (handler_subscription_roundtrip 9 80 demo_state Hq).
Defined.

(** ** Registry and capture loop: what a cycle has to encode *)

Lemma count_at_pos q (m : gmap WebSocket Z) :
  0 < count_at q m ↔ ∃ ws, m !! ws = Some q.
Proof.
  unfold count_at, Py.dict_items. split.
  - intros Hpos.
    destruct (filter (λ p, p.2 = q) (map_to_list m)) as [|[ws q'] l] eqn:E; [cbn in Hpos; lia|].
    assert (Hin : (ws, q') ∈ filter (λ p : WebSocket * Z, p.2 = q) (map_to_list m))
      by (rewrite E; left).
    apply list_elem_of_filter in Hin as [Hq Hin]. cbn in Hq. subst q'.
    exists ws. by apply elem_of_map_to_list.
  - intros [ws Hws].
    assert (Hin : (ws, q) ∈ filter (λ p : WebSocket * Z, p.2 = q) (map_to_list m)).
    { apply list_elem_of_filter. split; [done|]. by apply elem_of_map_to_list. }
    destruct (filter _ _); [by apply elem_of_nil in Hin|cbn; lia].
Qed.

Lemma required_qualities_NoDup (needed : gmap Z Z) : NoDup (required_qualities needed).
Proof.
  unfold required_qualities, Py.dict_items.
  eapply sublist_NoDup; [apply (NoDup_fst_map_to_list needed)|].
  apply fmap_sublist, sublist_filter.
Qed.

Lemma reachable_qualities_valid st : reachable st → qualities_valid st.
Proof.
  induction 1 as [|st o st' _ IH Hadm Hstep].
  - intros ws q Hws. done.
  - rewrite apply_op_total in Hstep. injection Hstep as <-.
    destruct o as [c quality|c|outcomes|quality compressed]; cbn.
    + unfold websocket_endpoint_open.
      destruct (Z.ltb_spec quality 30), (Z.gtb_spec quality 95); cbn; try done.
      intros ws q. cbn. destruct (decide (c = ws)) as [->|Hne].
      * rewrite lookup_insert_eq. intros [= <-]. lia.
      * rewrite lookup_insert_ne by done. apply IH.
    + intros ws q. rewrite unsubscribe_lookup. case_decide; [done|apply IH].
    + intros ws q. rewrite evict_all_lookup. case_decide; [done|apply IH].
    + done.
Qed.

Lemma reachable_demo_state : reachable demo_state.
Proof.
  apply (reachable_step
           (register 3 80 (register 2 50 (register 1 50 init_state)))
           (OpStore 50 demo_frame)); [|exact I|vm_compute; reflexivity].
  apply (reachable_step (register 2 50 (register 1 50 init_state)) (OpConnect 3 80));
    [|vm_compute; reflexivity|reflexivity].
  apply (reachable_step (register 1 50 init_state) (OpConnect 2 50));
    [|vm_compute; reflexivity|reflexivity].
  apply (reachable_step init_state (OpConnect 1 50));
    [apply reachable_init|vm_compute; reflexivity|reflexivity].
Qed.

(** X5: in every reachable state the capture loop's query of the registry
    returns exactly the qualities that some registered connection has: a
    quality with no subscriber left is not encoded any more (its counter
    stays in [frames_needed], at zero), and a quality with a subscriber is
    never skipped. *)
Theorem encoded_iff_subscribed (st : State) :
  reachable st →
  ∀ q, q ∈ required_qualities (frames_needed st) ↔ ∃ ws, active_sockets st !! ws = Some q.
Proof.
  intros Hreach q. rewrite elem_of_required_qualities, (reachable_counts_match st Hreach q).
  rewrite <- count_at_pos. lia.
Qed.

Lemma encoded_iff_subscribed_witness :
  reachable demo_state
  ∧ ∀ q, q ∈ required_qualities (frames_needed demo_state)
         ↔ ∃ ws, active_sockets demo_state !! ws = Some q.
Proof.
  split; [exact reachable_demo_state|].
  exact (encoded_iff_subscribed demo_state reachable_demo_state).
Defined.

(** X6: in every reachable state each registered connection has a quality
    from 30 to 95, so the capture loop's query returns qualities in that
    range only, each once: one cycle encodes at most 66 times, however many
    connections there are. *)
Theorem at_most_66_encodings (st : State) :
  reachable st →
  qualities_valid st
  ∧ (∀ q, q ∈ required_qualities (frames_needed st) → (30 ≤ q ≤ 95)%Z)
  ∧ NoDup (required_qualities (frames_needed st))
  ∧ length (required_qualities (frames_needed st)) ≤ 66.
Proof.
  intros Hreach. pose proof (reachable_qualities_valid st Hreach) as Hvalid.
  assert (Hrange : ∀ q, q ∈ required_qualities (frames_needed st) → (30 ≤ q ≤ 95)%Z).
  { intros q Hq. rewrite elem_of_required_qualities in Hq.
    rewrite (reachable_counts_match st Hreach q) in Hq.
    assert (Hpos : 0 < count_at q (active_sockets st)) by lia.
    apply count_at_pos in Hpos as [ws Hws]. by apply (Hvalid ws). }
  split; [done|]. split; [done|]. split; [apply required_qualities_NoDup|].
  change 66 with (length (seqZ 30 66)).
  apply submseteq_length, NoDup_submseteq; [apply required_qualities_NoDup|].
  intros q Hq. apply elem_of_seqZ. specialize (Hrange q Hq). lia.
Qed.

Lemma at_most_66_encodings_witness :
  reachable demo_state
  ∧ qualities_valid demo_state
  ∧ (∀ q, q ∈ required_qualities (frames_needed demo_state) → (30 ≤ q ≤ 95)%Z)
  ∧ NoDup (required_qualities (frames_needed demo_state))
  ∧ length (required_qualities (frames_needed demo_state)) ≤ 66.
Proof.
  split; [exact reachable_demo_state|].
  exact (at_most_66_encodings demo_state reachable_demo_state).
Defined.

(** ** Capture loop: what a cycle does and does not do *)

Lemma max0_not_negative x : (Py.max0 x <? 0)%float = false.
Proof. unfold Py.max0. by destruct (x <? 0)%float eqn:E. Qed.

Lemma wait_until_inv next_time clock evs later :
  wait_until next_time clock = Some (evs, later) →
  ∃ waits t_end,
    clock = waits ++ t_end :: later
    ∧ Forall (λ t, (t <? next_time)%float = true) waits
    ∧ (t_end <? next_time)%float = false
    ∧ evs = replicate (length waits) (EvSleep poll_sleep).
Proof.
  revert evs later. induction clock as [|t clock IH]; intros evs later; cbn; [done|].
  destruct (t <? next_time)%float eqn:Ht.
  - destruct (wait_until next_time clock) as [[evs' later']|]; cbn; [|done].
    intros [= <- <-]. destruct (IH _ _ eq_refl) as (waits & t_end & -> & Hw & Hend & ->).
    exists (t :: waits), t_end. split; [done|]. split; [by constructor|]. done.
  - intros [= <- <-]. exists [], t. split; [done|]. split; [constructor|]. done.
Qed.

Lemma omap_encoded_sleeps n d : encoded_qualities (replicate n (EvSleep d)) = [].
Proof. induction n; done. Qed.

Lemma omap_started_sleeps n d : started_broadcasts (replicate n (EvSleep d)) = [].
Proof. induction n; done. Qed.

Lemma slept_sleeps n d : slept (replicate n (EvSleep d)) = replicate n d.
Proof. induction n as [|n IH]; [done|]. unfold slept in *. cbn. by rewrite IH. Qed.

Section CaptureFurther.

Variable Frame : Type.
Variable imencode : Frame → Z → bytes.

Lemma image_updater_cycle_inv frame needed u u' evs :
  image_updater_cycle Frame imencode (mkInput (Some frame) needed) u = Some (u', evs) →
  ∃ t0 t1 waits t_end,
    clock u = t0 :: t1 :: waits ++ t_end :: clock u'
    ∧ Forall (λ t, (t <? last_time u + interval)%float = true) waits
    ∧ (t_end <? last_time u + interval)%float = false
    ∧ last_time u' = (last_time u + interval)%float
    ∧ frame_cache u'
      = (process_qualities Frame imencode frame (required_qualities needed) (frame_cache u)).1
    ∧ evs
      = (process_qualities Frame imencode frame (required_qualities needed) (frame_cache u)).2
        ++ EvSleep (Py.max0 (interval - (t1 - t0)))
           :: replicate (length waits) (EvSleep poll_sleep).
Proof.
  destruct u as [lt cache [|t0 [|t1 later]]]; [done| |].
  - unfold image_updater_cycle, pace. cbn. by destruct (process_qualities _ _ _ _ _).
  - rewrite image_updater_cycle_read.
    destruct (wait_until _ later) as [[evw later']|] eqn:Hwait; cbn; [|done].
    intros [= <- <-]. cbn.
    destruct (wait_until_inv _ _ _ _ Hwait) as (waits & t_end & -> & Hw & Hend & ->).
    by exists t0, t1, waits, t_end.
Qed.

Lemma encoded_process_qualities frame required cache :
  encoded_qualities (process_qualities Frame imencode frame required cache).2 = required
  ∧ started_broadcasts (process_qualities Frame imencode frame required cache).2 = required.
Proof.
  rewrite process_qualities_events.
  induction required as [|q required [IH1 IH2]]; [done|].
  unfold encoded_qualities, started_broadcasts in *. cbn. by rewrite IH1, IH2.
Qed.

(** X7: a cycle whose camera read succeeded encodes each wanted quality
    exactly once and starts exactly one broadcast thread for it; a quality
    whose demand count is not positive is not encoded, gets no broadcast, and
    its cache entry (a frame of an earlier cycle, or none) is left as it
    was. *)
Theorem cycle_touches_only_wanted (frame : Frame) (needed : gmap Z Z) (u u' : updater)
    (evs : list event) :
  image_updater_cycle Frame imencode (mkInput (Some frame) needed) u = Some (u', evs) →
  encoded_qualities evs = required_qualities needed
  ∧ started_broadcasts evs = required_qualities needed
  ∧ NoDup (required_qualities needed)
  ∧ (∀ q, q ∈ required_qualities needed ↔ (0 < Py.counter_get needed q)%Z)
  ∧ (∀ q, frame_cache u' !! q
          = if decide (0 < Py.counter_get needed q)%Z
            then Some (imencode frame q)
            else frame_cache u !! q).
Proof.
  intros Hcycle.
  destruct (image_updater_cycle_inv _ _ _ _ _ Hcycle)
    as (t0 & t1 & waits & t_end & _ & _ & _ & _ & Hcache & ->).
  destruct (encoded_process_qualities frame (required_qualities needed) (frame_cache u))
    as [Henc Hstart].
  unfold encoded_qualities, started_broadcasts in *.
  rewrite !omap_app, Henc, Hstart. cbn.
  pose proof (omap_encoded_sleeps (length waits) poll_sleep) as He.
  pose proof (omap_started_sleeps (length waits) poll_sleep) as Hs.
  unfold encoded_qualities, started_broadcasts in He, Hs. rewrite He, Hs, !app_nil_r.
  split; [done|]. split; [done|]. split; [apply required_qualities_NoDup|].
  split; [apply elem_of_required_qualities|].
  intros q. rewrite Hcache, process_qualities_lookup.
  destruct (decide (0 < Py.counter_get needed q)%Z) as [Hpos|Hneg].
  - rewrite decide_True; [done|]. by apply elem_of_required_qualities.
  - rewrite decide_False; [done|]. by rewrite elem_of_required_qualities.
Qed.

End CaptureFurther.

Lemma cycle_touches_only_wanted_witness :
  let needed := frames_needed demo_state in
  let u := mkUpdater 0 (frames demo_state) [0; 0.0078125; 0.03125]%float in
  let u' := mkUpdater (0 + interval)
              (<[80%Z := demo_imencode 7 80]> (<[50%Z := demo_imencode 7 50]> (frames demo_state)))
              [] in
  let evs := [EvImencode 50; EvThreadStart 50; EvImencode 80; EvThreadStart 80;
              EvSleep (Py.max0 (interval - (0.0078125 - 0)))] in
  image_updater_cycle nat demo_imencode (mkInput (Some 7) needed) u = Some (u', evs)
  ∧ encoded_qualities evs = required_qualities needed
  ∧ started_broadcasts evs = required_qualities needed
  ∧ NoDup (required_qualities needed)
  ∧ (∀ q, q ∈ required_qualities needed ↔ (0 < Py.counter_get needed q)%Z)
  ∧ (∀ q, frame_cache u' !! q
          = if decide (0 < Py.counter_get needed q)%Z
            then Some (demo_imencode 7 q)
            else frame_cache u !! q).
Proof.
  intros needed u u' evs.
  assert (Hcycle : image_updater_cycle nat demo_imencode (mkInput (Some 7) needed) u
                   = Some (u', evs)) by (vm_compute; reflexivity).
  split; [exact Hcycle|].
  exact (cycle_touches_only_wanted nat demo_imencode 7 needed u u' evs Hcycle).
Defined.

Section CaptureRun.

Variable Frame : Type.
Variable imencode : Frame → Z → bytes.

Lemma process_qualities_no_sleep frame required cache d :
  EvSleep d ∉ (process_qualities Frame imencode frame required cache).2.
Proof.
  rewrite process_qualities_events. intros Hin.
  apply list_elem_of_bind in Hin as [q [Hin _]].
  apply elem_of_cons in Hin as [?|Hin]; [done|].
  apply elem_of_cons in Hin as [?|Hin]; [done|]. by apply elem_of_nil in Hin.
Qed.

Lemma image_updater_cycle_sleeps inp u u' evs d :
  image_updater_cycle Frame imencode inp u = Some (u', evs) →
  EvSleep d ∈ evs → (d <? 0)%float = false.
Proof.
  destruct inp as [[frame|] needed].
  - intros Hcycle.
    destruct (image_updater_cycle_inv _ _ _ _ _ _ _ Hcycle)
      as (t0 & t1 & waits & t_end & _ & _ & _ & _ & _ & ->).
    intros [Hin|Hin]%elem_of_app; [by apply process_qualities_no_sleep in Hin|].
    apply elem_of_cons in Hin as [[= ->]|Hin]; [apply max0_not_negative|].
    apply elem_of_replicate in Hin as [[= ->] _]. reflexivity.
  - destruct u as [lt cache [|t0 later]]; cbn; [done|].
    intros [= <- <-] Hin. by apply elem_of_nil in Hin.
Qed.

Lemma image_updater_loop_sleeps inputs u u' evs d :
  image_updater_loop Frame imencode inputs u = Some (u', evs) →
  EvSleep d ∈ evs → (d <? 0)%float = false.
Proof.
  revert u u' evs. induction inputs as [|inp inputs IH]; intros u u' evs Hrun; cbn in Hrun.
  - injection Hrun as <- <-. intros Hin. by apply elem_of_nil in Hin.
  - destruct (image_updater_cycle _ _ inp u) as [[u1 evs1]|] eqn:Hcycle; cbn in Hrun; [|done].
    destruct (image_updater_loop _ _ inputs u1) as [[u2 evs2]|] eqn:Hloop; cbn in Hrun; [|done].
    injection Hrun as <- <-. intros [Hin|Hin]%elem_of_app.
    + by apply (image_updater_cycle_sleeps _ _ _ _ _ Hcycle).
    + by apply (IH _ _ _ Hloop).
Qed.

(** X8: whatever the clock reads (a cycle that overran its period, a clock
    that jumped), no run of the capture loop ever calls [time.sleep] with a
    negative duration, which would raise [ValueError] and end the thread:
    every sleep is either [max(interval - elapsed, 0)] or the one-millisecond
    poll. *)
Theorem sleeps_never_negative (inputs : list (cycle_input Frame)) (cache : gmap Z bytes)
    (clock0 : list float) (u' : updater) (evs : list event) :
  image_updater Frame imencode inputs cache clock0 = Some (u', evs) →
  ∀ d, EvSleep d ∈ evs → (d <? 0)%float = false.
Proof.
  destruct clock0 as [|t clock1]; cbn; [done|].
  intros Hrun d. by apply (image_updater_loop_sleeps _ _ _ _ _ Hrun).
Qed.

(** X9: a cycle whose camera read succeeded never ends before its deadline.
    It reads the clock at its start and after the encoding, then once more
    for every turn of the wait loop: the readings that are before the
    previous deadline plus the period are each followed by a one-millisecond
    sleep, and the cycle ends on the first reading that is not before it
    (at once, with no poll, when the cycle has overrun). *)
Theorem cycle_never_ends_early (frame : Frame) (needed : gmap Z Z) (u u' : updater)
    (evs : list event) :
  image_updater_cycle Frame imencode (mkInput (Some frame) needed) u = Some (u', evs) →
  ∃ t0 t1 waits t_end,
    clock u = t0 :: t1 :: waits ++ t_end :: clock u'
    ∧ Forall (λ t, (t <? last_time u + interval)%float = true) waits
    ∧ (t_end <? last_time u + interval)%float = false
    ∧ last_time u' = (last_time u + interval)%float
    ∧ slept evs
      = Py.max0 (interval - (t1 - t0)) :: replicate (length waits) poll_sleep.
Proof.
  intros Hcycle.
  destruct (image_updater_cycle_inv _ _ _ _ _ _ _ Hcycle)
    as (t0 & t1 & waits & t_end & Hclock & Hw & Hend & Hlt & _ & ->).
  exists t0, t1, waits, t_end. do 4 (split; [done|]).
  unfold slept. rewrite omap_app, process_qualities_events.
  assert (Hnone : ∀ l : list Z,
    omap (λ e, match e with EvSleep d => Some d | _ => None end)
      (l ≫= λ q, [EvImencode q; EvThreadStart q]) = []).
  { induction l as [|q l IH]; [done|]. cbn. apply IH. }
  rewrite Hnone. cbn. f_equal. apply slept_sleeps.
Qed.

End CaptureRun.

Lemma sleeps_never_negative_witness :
  let inputs := [mkInput (Some 7) (frames_needed demo_state);
                 mkInput None (frames_needed demo_state);
                 mkInput (Some 8) (frames_needed demo_state)] in
  let clock0 := [1; 1; 1.5; 1.5; 2; 2.5; 2.5; 0.5; 3]%float in
  ∃ u' evs,
    image_updater nat demo_imencode inputs (frames demo_state) clock0 = Some (u', evs)
    ∧ ∀ d, EvSleep d ∈ evs → (d <? 0)%float = false.
Proof.
  intros inputs clock0.
  destruct (image_updater nat demo_imencode inputs (frames demo_state) clock0)
    as [[u' evs]|] eqn:Hrun; [|vm_compute in Hrun; discriminate Hrun].
  exists u', evs. split; [reflexivity|].
  exact (sleeps_never_negative nat demo_imencode inputs (frames demo_state) clock0 u' evs Hrun).
Defined.

Lemma cycle_never_ends_early_witness :
  let u := mkUpdater 1 (frames demo_state) [1; 1.0078125; 1.015625; 1.0234375; 1.03125; 2]%float in
  ∃ u' evs,
    image_updater_cycle nat demo_imencode (mkInput (Some 7) (frames_needed demo_state)) u
    = Some (u', evs)
    ∧ ∃ t0 t1 waits t_end,
        clock u = t0 :: t1 :: waits ++ t_end :: clock u'
        ∧ Forall (λ t, (t <? last_time u + interval)%float = true) waits
        ∧ (t_end <? last_time u + interval)%float = false
        ∧ last_time u' = (last_time u + interval)%float
        ∧ slept evs
          = Py.max0 (interval - (t1 - t0)) :: replicate (length waits) poll_sleep.
Proof.
  intros u.
  destruct (image_updater_cycle nat demo_imencode
              (mkInput (Some 7) (frames_needed demo_state)) u)
    as [[u' evs]|] eqn:Hcycle; [|vm_compute in Hcycle; discriminate Hcycle].
  exists u', evs. split; [reflexivity|].
  exact (cycle_never_ends_early nat demo_imencode 7 (frames_needed demo_state) u u' evs Hcycle).
Defined.

Section CaptureCache.

Variable Frame : Type.
Variable imencode : Frame → Z → bytes.

Lemma image_updater_cycle_cache inp u u1 evs1 q :
  image_updater_cycle Frame imencode inp u = Some (u1, evs1) →
  ((q ∉ started_broadcasts evs1) ∧ frame_cache u1 !! q = frame_cache u !! q)
  ∨ (q ∈ started_broadcasts evs1
     ∧ ∃ frame, camera_read inp = Some frame
                ∧ (0 < Py.counter_get (needed_now inp) q)%Z
                ∧ frame_cache u1 !! q = Some (imencode frame q)).
Proof.
  destruct inp as [[frame|] needed].
  - intros Hcycle.
    destruct (image_updater_cycle_inv _ _ _ _ _ _ _ Hcycle)
      as (t0 & t1 & waits & t_end & _ & _ & _ & _ & Hcache & ->).
    destruct (encoded_process_qualities Frame imencode frame (required_qualities needed)
                (frame_cache u)) as [_ Hstart].
    assert (Hst : started_broadcasts
                    ((process_qualities Frame imencode frame (required_qualities needed)
                        (frame_cache u)).2
                     ++ EvSleep (Py.max0 (interval - (t1 - t0)))
                        :: replicate (length waits) (EvSleep poll_sleep))
                  = required_qualities needed).
    { unfold started_broadcasts in *. rewrite omap_app, Hstart. cbn.
      pose proof (omap_started_sleeps (length waits) poll_sleep) as Hs.
      unfold started_broadcasts in Hs. by rewrite Hs, app_nil_r. }
    rewrite Hst, Hcache, process_qualities_lookup.
    destruct (decide (q ∈ required_qualities needed)) as [Hin|Hout]; [right|by left].
    split; [done|]. exists frame. split; [done|]. split; [|done].
    by apply elem_of_required_qualities.
  - destruct u as [lt cache [|t0 later]]; cbn; [done|].
    intros [= <- <-]. left. split; [apply not_elem_of_nil|done].
Qed.

Lemma image_updater_loop_cache inputs u u' evs q :
  image_updater_loop Frame imencode inputs u = Some (u', evs) →
  ((q ∉ started_broadcasts evs) ∧ frame_cache u' !! q = frame_cache u !! q)
  ∨ (q ∈ started_broadcasts evs
     ∧ ∃ frame needed, mkInput (Some frame) needed ∈ inputs
                       ∧ (0 < Py.counter_get needed q)%Z
                       ∧ frame_cache u' !! q = Some (imencode frame q)).
Proof.
  revert u u' evs. induction inputs as [|inp inputs IH]; intros u u' evs Hrun; cbn in Hrun.
  - injection Hrun as <- <-. left. split; [apply not_elem_of_nil|done].
  - destruct (image_updater_cycle _ _ inp u) as [[u1 evs1]|] eqn:Hcycle; cbn in Hrun; [|done].
    destruct (image_updater_loop _ _ inputs u1) as [[u2 evs2]|] eqn:Hloop; cbn in Hrun; [|done].
    injection Hrun as <- <-.
    unfold started_broadcasts. rewrite omap_app. fold (started_broadcasts evs1).
    fold (started_broadcasts evs2).
    destruct (IH _ _ _ Hloop) as [[Hout2 Heq2]|(Hin2 & frame & needed & Hin & Hpos & Hq)].
    + destruct (image_updater_cycle_cache _ _ _ _ q Hcycle)
        as [[Hout1 Heq1]|(Hin1 & frame & Hread & Hpos & Hq)].
      * left. split; [|congruence]. intros [?|?]%elem_of_app; done.
      * right. split; [apply elem_of_app; by left|].
        exists frame, (needed_now inp). split; [|split; [done|congruence]].
        destruct inp as [read needed]. cbn in *. subst read. left.
    + right. split; [apply elem_of_app; by right|].
      exists frame, needed. split; [by right|done].
Qed.

(** X10: over any run of the capture loop, the cache entry of a quality
    changes exactly when a broadcast thread was started for that quality,
    and then it holds the encoding, at that very quality, of a frame the
    camera returned in the run while the quality was wanted.  So an entry is
    never removed, never holds bytes encoded for another quality, and a
    quality that was never wanted keeps what it had. *)
Theorem cache_holds_own_quality (inputs : list (cycle_input Frame)) (cache : gmap Z bytes)
    (clock0 : list float) (u' : updater) (evs : list event) :
  image_updater Frame imencode inputs cache clock0 = Some (u', evs) →
  ∀ q,
    (((q ∉ started_broadcasts evs) ∧ frame_cache u' !! q = cache !! q)
     ∨ (q ∈ started_broadcasts evs
        ∧ ∃ frame needed, mkInput (Some frame) needed ∈ inputs
                          ∧ (0 < Py.counter_get needed q)%Z
                          ∧ frame_cache u' !! q = Some (imencode frame q)))
    ∧ (is_Some (cache !! q) → is_Some (frame_cache u' !! q)).
Proof.
  destruct clock0 as [|t clock1]; cbn; [done|].
  intros Hrun q.
  pose proof (image_updater_loop_cache _ _ _ _ q Hrun) as Hq. cbn in Hq.
  split; [exact Hq|].
  destruct Hq as [[_ ->]|(_ & frame & needed & _ & _ & ->)]; eauto.
Qed.

(** X11: a broadcast never sends the empty default of [frames.get]: for
    every quality a run of the capture loop started a broadcast thread for,
    a snapshot taken of the cache as the run leaves it reads the JPEG of a
    frame of that run, encoded at the snapshot's quality. *)
Theorem broadcast_reads_encoded_frame (inputs : list (cycle_input Frame))
    (cache : gmap Z bytes) (clock0 : list float) (u' : updater) (evs : list event)
    (q : Z) (st : State) :
  image_updater Frame imencode inputs cache clock0 = Some (u', evs) →
  q ∈ started_broadcasts evs →
  frames st = frame_cache u' →
  ∃ frame needed,
    mkInput (Some frame) needed ∈ inputs
    ∧ (0 < Py.counter_get needed q)%Z
    ∧ (update_websockets_for_quality q st).1 = imencode frame q.
Proof.
  destruct clock0 as [|t clock1]; cbn; [done|].
  intros Hrun Hstarted Hframes.
  destruct (image_updater_loop_cache _ _ _ _ q Hrun)
    as [[Hout _]|(_ & frame & needed & Hin & Hpos & Hq)]; [done|].
  exists frame, needed. split; [done|]. split; [done|]. by rewrite Hframes, Hq.
Qed.

End CaptureCache.

Lemma cache_holds_own_quality_witness :
  let inputs := [mkInput (Some 7) (frames_needed demo_state);
                 mkInput None (frames_needed demo_state);
                 mkInput (Some 8) (<[50%Z := 0%Z]> (frames_needed demo_state))] in
  let clock0 := [1; 1; 1.5; 1.5; 2; 2.5; 2.5; 0.5; 3]%float in
  ∃ u' evs,
    image_updater nat demo_imencode inputs (frames demo_state) clock0 = Some (u', evs)
    ∧ frame_cache u' !! 50%Z = Some (demo_imencode 7 50)
    ∧ frame_cache u' !! 80%Z = Some (demo_imencode 8 80)
    ∧ ∀ q,
        (((q ∉ started_broadcasts evs) ∧ frame_cache u' !! q = frames demo_state !! q)
         ∨ (q ∈ started_broadcasts evs
            ∧ ∃ frame needed, mkInput (Some frame) needed ∈ inputs
                              ∧ (0 < Py.counter_get needed q)%Z
                              ∧ frame_cache u' !! q = Some (demo_imencode frame q)))
        ∧ (is_Some (frames demo_state !! q) → is_Some (frame_cache u' !! q)).
Proof.
  intros inputs clock0.
  destruct (image_updater nat demo_imencode inputs (frames demo_state) clock0)
    as [[u' evs]|] eqn:Hrun; [|vm_compute in Hrun; discriminate Hrun].
  exists u', evs. split; [reflexivity|].
  assert (Hv : Some (u', evs)
               = image_updater nat demo_imencode inputs (frames demo_state) clock0)
    by (symmetry; exact Hrun).
  vm_compute in Hv. injection Hv as Hu Hevs.
  split; [rewrite Hu; vm_compute; reflexivity|].
  split; [rewrite Hu; vm_compute; reflexivity|].
  exact (cache_holds_own_quality nat demo_imencode inputs (frames demo_state) clock0
           u' evs Hrun).
Defined.

Lemma broadcast_reads_encoded_frame_witness :
  let needed := frames_needed demo_state in
  let inputs := [mkInput (Some 7) needed] in
  let clock0 := [0; 0; 0.0078125; 0.03125]%float in
  let cache' := <[80%Z := demo_imencode 7 80]>
                  (<[50%Z := demo_imencode 7 50]> (frames demo_state)) in
  let u' := mkUpdater (0 + interval) cache' [] in
  let evs := [EvImencode 50; EvThreadStart 50; EvImencode 80; EvThreadStart 80;
              EvSleep (Py.max0 (interval - (0.0078125 - 0)))] in
  let st := mkState (active_sockets demo_state) needed cache' in
  image_updater nat demo_imencode inputs (frames demo_state) clock0 = Some (u', evs)
  ∧ 80%Z ∈ started_broadcasts evs
  ∧ frames st = frame_cache u'
  ∧ ∃ frame needed',
      mkInput (Some frame) needed' ∈ inputs
      ∧ (0 < Py.counter_get needed' 80)%Z
      ∧ (update_websockets_for_quality 80 st).1 = demo_imencode frame 80.
Proof.
  intros needed inputs clock0 cache' u' evs st.
  assert (Hrun : image_updater nat demo_imencode inputs (frames demo_state) clock0
                 = Some (u', evs)) by (vm_compute; reflexivity).
  assert (Hstarted : 80%Z ∈ started_broadcasts evs) by (right; left).
  assert (Hframes : frames st = frame_cache u') by reflexivity.
  split; [exact Hrun|]. split; [exact Hstarted|]. split; [exact Hframes|].
  exact (broadcast_reads_encoded_frame nat demo_imencode inputs (frames demo_state) clock0
           u' evs 80 st Hrun Hstarted Hframes).
Defined.

(** ** Connection handler: leaving the receive loop *)

Lemma keep_alive_texts (texts : list string) e later :
  keep_alive ((Ok <$> texts) ++ Raise e :: later) = Some e.
Proof. induction texts as [|t texts IH]; [done|]. apply IH. Qed.

Lemma keep_alive_only_texts (texts : list string) : keep_alive (Ok <$> texts) = None.
Proof. induction texts as [|t texts IH]; [done|]. apply IH. Qed.

(** X12: the handler drops every text it receives and stays in its loop as
    long as only texts arrive.  The first exception of [receive_text], of
    whatever class, ends it through the [finally] block: the connection is
    unsubscribed (the block itself raises nothing, also when a broadcast
    removed the connection before), the other connections and the frame
    cache are left alone; the handler then returns normally exactly when the
    exception was [WebSocketDisconnect], and raises the exception again
    otherwise. *)
Theorem handler_cleans_up_on_any_exit (ws : WebSocket) (texts : list string) (e : exn)
    (later : list (result string)) (st : State) :
  websocket_endpoint_serve ws (Ok <$> texts) st = None
  ∧ ∃ st' outcome,
      websocket_endpoint_serve ws ((Ok <$> texts) ++ Raise e :: later) st
      = Some (st', outcome)
      ∧ (outcome = Ok () ↔ e = WebSocketDisconnect)
      ∧ (outcome ≠ Ok () → outcome = Raise e)
      ∧ active_sockets st' !! ws = None
      ∧ (∀ ws', ws' ≠ ws → active_sockets st' !! ws' = active_sockets st !! ws')
      ∧ (∀ q, Py.counter_get (frames_needed st') q
              = if decide (active_sockets st !! ws = Some q)
                then Z.max (Py.counter_get (frames_needed st) q - 1) 0
                else Py.counter_get (frames_needed st) q)
      ∧ frames st' = frames st.
Proof.
  unfold websocket_endpoint_serve. rewrite keep_alive_only_texts, keep_alive_texts.
  split; [done|]. cbn. rewrite websocket_endpoint_finally_unsubscribe.
  eexists _, _. split; [done|].
  split; [destruct e; split; done|].
  split; [by destruct e|].
  split; [apply unsubscribe_gone|].
  split; [intros ws' Hne; by rewrite unsubscribe_lookup, decide_False|].
  split; [apply unsubscribe_counter|apply unsubscribe_frames].
Qed.

(** ** The three components together *)

Lemma reachable_required_range st q :
  reachable st → q ∈ required_qualities (frames_needed st) → (30 ≤ q ≤ 95)%Z.
Proof.
  intros Hreach Hq. rewrite elem_of_required_qualities in Hq.
  rewrite (reachable_counts_match st Hreach q) in Hq.
  assert (Hpos : 0 < count_at q (active_sockets st)) by lia.
  apply count_at_pos in Hpos as [ws Hws].
  by apply (reachable_qualities_valid st Hreach ws).
Qed.

Lemma keys_valid_size {V} (d : gmap Z V) : keys_valid d → size d ≤ 66.
Proof.
  intros Hvalid. rewrite <- length_map_to_list, <- (length_fmap fst).
  change 66 with (length (seqZ 30 66)).
  apply submseteq_length, NoDup_submseteq; [apply NoDup_fst_map_to_list|].
  intros q [[q' v] [-> Hin]]%list_elem_of_fmap. apply elem_of_map_to_list in Hin.
  apply elem_of_seqZ. cbn. specialize (Hvalid q' (mk_is_Some _ _ Hin)). lia.
Qed.

Lemma unsubscribe_keys_valid c st :
  qualities_valid st → keys_valid (frames_needed st) →
  qualities_valid (unsubscribe c st) ∧ keys_valid (frames_needed (unsubscribe c st)).
Proof.
  intros Hq Hk. split.
  - intros ws q. rewrite unsubscribe_lookup. case_decide; [done|apply Hq].
  - unfold unsubscribe. destruct (active_sockets st !! c) as [q0|] eqn:E; [|done].
    cbn. intros q. destruct (decide (q0 = q)) as [<-|Hne].
    + intros _. by apply (Hq c).
    + rewrite lookup_insert_ne by done. apply Hk.
Qed.

Lemma evict_all_keys_valid outcomes st :
  qualities_valid st → keys_valid (frames_needed st) →
  qualities_valid (evict_all outcomes st) ∧ keys_valid (frames_needed (evict_all outcomes st)).
Proof.
  revert st. induction outcomes as [|[ws ok] outcomes IH]; intros st Hq Hk; [done|].
  unfold evict_all in *. cbn. destruct ok; cbn; [by apply IH|].
  destruct (unsubscribe_keys_valid ws st Hq Hk). by apply IH.
Qed.

Lemma reachable_keys_valid st : reachable st → keys_valid (frames_needed st).
Proof.
  induction 1 as [|st o st' Hreach IH Hadm Hstep].
  - intros q [v Hv]. done.
  - pose proof (reachable_qualities_valid st Hreach) as Hq.
    rewrite apply_op_total in Hstep. injection Hstep as <-.
    destruct o as [c quality|c|outcomes|quality compressed]; cbn.
    + unfold websocket_endpoint_open.
      destruct (Z.ltb_spec quality 30), (Z.gtb_spec quality 95); cbn; try done.
      intros q. destruct (decide (quality = q)) as [<-|Hne]; [intros _; lia|].
      rewrite lookup_insert_ne by done. apply IH.
    + by apply unsubscribe_keys_valid.
    + by apply evict_all_keys_valid.
    + done.
Qed.

(** X13: [frames_needed], whose entries are never deleted, cannot grow
    without bound: in every reachable state its keys are qualities from 30
    to 95, at most 66 of them. *)
Theorem demand_registry_stays_small (st : State) :
  reachable st →
  keys_valid (frames_needed st) ∧ size (frames_needed st) ≤ 66.
Proof.
  intros Hreach. pose proof (reachable_keys_valid st Hreach) as Hk.
  split; [done|]. by apply keys_valid_size.
Qed.

Lemma demand_registry_stays_small_witness :
  reachable demo_state
  ∧ keys_valid (frames_needed demo_state) ∧ size (frames_needed demo_state) ≤ 66.
Proof.
  split; [exact reachable_demo_state|].
  exact (demand_registry_stays_small demo_state reachable_demo_state).
Defined.

Section Pipeline.

Variable Frame : Type.
Variable imencode : Frame → Z → bytes.

(** X14: the frame cache, whose entries are never deleted, cannot grow
    without bound either: started empty and fed, cycle after cycle, with the
    registry of reachable states, it only ever has keys from 30 to 95, at
    most 66 of them. *)
Theorem frame_cache_stays_small (inputs : list (cycle_input Frame)) (clock0 : list float)
    (u' : updater) (evs : list event) :
  Forall (λ inp, ∃ st, reachable st ∧ needed_now inp = frames_needed st) inputs →
  image_updater Frame imencode inputs ∅ clock0 = Some (u', evs) →
  keys_valid (frame_cache u') ∧ size (frame_cache u') ≤ 66.
Proof.
  intros Hinputs Hrun.
  assert (Hk : keys_valid (frame_cache u')).
  { destruct clock0 as [|t clock1]; [done|]. cbn in Hrun. intros q Hsome.
    destruct (image_updater_loop_cache Frame imencode _ _ _ _ q Hrun)
      as [[_ Heq]|(_ & frame & needed & Hin & Hpos & _)].
    - cbn in Heq. rewrite Heq in Hsome. by destruct Hsome.
    - rewrite Forall_forall in Hinputs. destruct (Hinputs _ Hin) as (st & Hreach & Hst).
      cbn in Hst. subst needed. apply (reachable_required_range st q Hreach).
      by apply elem_of_required_qualities. }
  split; [done|]. by apply keys_valid_size.
Qed.


End Pipeline.

Lemma frame_cache_stays_small_witness :
  let inputs := [mkInput (Some 7) (frames_needed demo_state);
                 mkInput None (frames_needed demo_state);
                 mkInput (Some 8) (frames_needed init_state)] in
  let clock0 := [1; 1; 1.5; 1.5; 2; 2.5; 2.5; 0.5; 3]%float in
  Forall (λ inp, ∃ st, reachable st ∧ needed_now inp = frames_needed st) inputs
  ∧ ∃ u' evs,
      image_updater nat demo_imencode inputs ∅ clock0 = Some (u', evs)
      ∧ keys_valid (frame_cache u') ∧ size (frame_cache u') ≤ 66.
Proof.
  intros inputs clock0.
  assert (Hinputs : Forall (λ inp : cycle_input nat,
                              ∃ st, reachable st ∧ needed_now inp = frames_needed st) inputs).
  { repeat constructor.
    - exists demo_state. split; [exact reachable_demo_state|reflexivity].
    - exists demo_state. split; [exact reachable_demo_state|reflexivity].
    - exists init_state. split; [exact reachable_init|reflexivity]. }
  split; [exact Hinputs|].
  destruct (image_updater nat demo_imencode inputs ∅ clock0)
    as [[u' evs]|] eqn:Hrun; [|vm_compute in Hrun; discriminate Hrun].
  exists u', evs. split; [reflexivity|].
  exact (frame_cache_stays_small nat demo_imencode inputs clock0 u' evs Hinputs Hrun).
Defined.

